(** * termbox-go: the public API (api.go), embedded and verified

    The development follows [api.go].  Go's [int] is modelled as a 64-bit
    two's-complement integer carried in [Z] with the wrap-around written
    out; slices are lists whose capacity equals their length; the
    package-level variables are gathered in one record that every
    operation threads through; a run-time panic is an explicit outcome,
    next to the session reached when it was raised.  The reader goroutine
    and [PollEvent] are a transition system over the unbuffered channel
    they share.

    Part I holds the embedding, Part II the facts proved about it. *)

From Stdlib Require Import ZArith Lia Bool List.
From stdpp Require Import base list.

Open Scope Z_scope.

(** * Part I: the embedding *)

(** ** Go's [int] *)

Module GoInt.

Definition int_bits : Z := 64.

Definition int_min : Z := - 2 ^ (int_bits - 1).

Definition int_max : Z := 2 ^ (int_bits - 1) - 1.

(** Reduction of a mathematical integer to the value an [int] holds. *)
Definition wrap (z : Z) : Z :=
  (z + 2 ^ (int_bits - 1)) mod 2 ^ int_bits - 2 ^ (int_bits - 1).

Definition is_int (z : Z) : Prop := int_min <= z <= int_max.

Definition add (a b : Z) : Z := wrap (a + b).

Definition mul (a b : Z) : Z := wrap (a * b).

(** Go's [/] truncates toward zero; the divisor is checked by the caller. *)
Definition quot (a b : Z) : Z := wrap (Z.quot a b).

End GoInt.

(** ** Data model *)

(** [type Attribute uint16], [rune] is [int32]; both carried in [Z]. *)
Definition Attribute := Z.

Definition rune := Z.

Record Cell := mkCell { Ch : rune; Fg : Attribute; Bg : Attribute }.

Definition Cell_eqb (a b : Cell) : bool :=
  (Ch a =? Ch b) && (Fg a =? Fg b) && (Bg a =? Bg b).

(** Input mode constants ([InputCurrent InputMode = iota], ...). *)
Definition InputMode := Z.

Definition InputCurrent : InputMode := 0.

Definition InputEsc : InputMode := 1.

Definition InputAlt : InputMode := 2.

(** The grid type used by [back_buffer] and [front_buffer]: the fields
    api.go reads and writes ([width], [height], [cells]). *)
Record cellbuf := mkCellbuf {
  width : Z;
  height : Z;
  cells : list Cell
}.

(** Indices into the capability table [funcs] that api.go uses. *)
Inductive capability :=
  | t_enter_ca | t_exit_ca | t_show_cursor | t_hide_cursor
  | t_clear_screen | t_sgr0 | t_enter_keypad | t_exit_keypad
  | t_move_cursor | t_sgr.

(** What is appended to [outbuf]: the calls are recorded with the name of
    the capability template they use, the table [funcs] itself being
    supplied by the terminal database at run time. *)
Inductive out_item :=
  | WriteString (c : capability)          (* outbuf.WriteString(funcs[c]) *)
  | Fprintf (c : capability) (a b : Z)    (* fmt.Fprintf(&outbuf, funcs[c], a, b) *)
  | WriteRune (ch : Z).                   (* outbuf.Write(encoding of ch) *)

(** The output side of the package state: the pending output buffer and
    the caches of the last emitted cursor position and attribute pair. *)
Record emitter := mkEmitter {
  outbuf : list out_item;
  lastx : Z;
  lasty : Z;
  lastfg : Attribute;
  lastbg : Attribute
}.

(** The package-level variables, plus the two pieces of the environment
    the drawing side observes: what has been written to the terminal and
    what the terminal would answer to a size query. *)
Record session := mkSession {
  back_buffer : cellbuf;
  front_buffer : cellbuf;
  termw : Z;
  termh : Z;
  cursor_x : Z;
  cursor_y : Z;
  foreground : Attribute;
  background : Attribute;
  input_mode : InputMode;
  em : emitter;
  sigwinch_draw : bool;         (* a value is buffered in the draw-side channel *)
  tty_size : Z * Z;             (* answer of get_term_size(out.Fd()) *)
  tty_written : list (list out_item)  (* one entry per write to the device *)
}.

Definition set_back_buffer (b : cellbuf) (s : session) : session :=
  mkSession b (front_buffer s) (termw s) (termh s) (cursor_x s) (cursor_y s)
    (foreground s) (background s) (input_mode s) (em s) (sigwinch_draw s)
    (tty_size s) (tty_written s).

Definition set_front_buffer (b : cellbuf) (s : session) : session :=
  mkSession (back_buffer s) b (termw s) (termh s) (cursor_x s) (cursor_y s)
    (foreground s) (background s) (input_mode s) (em s) (sigwinch_draw s)
    (tty_size s) (tty_written s).

Definition set_cursor (x y : Z) (s : session) : session :=
  mkSession (back_buffer s) (front_buffer s) (termw s) (termh s) x y
    (foreground s) (background s) (input_mode s) (em s) (sigwinch_draw s)
    (tty_size s) (tty_written s).

Definition set_input_mode (m : InputMode) (s : session) : session :=
  mkSession (back_buffer s) (front_buffer s) (termw s) (termh s)
    (cursor_x s) (cursor_y s) (foreground s) (background s) m (em s)
    (sigwinch_draw s) (tty_size s) (tty_written s).

Definition set_em (e : emitter) (s : session) : session :=
  mkSession (back_buffer s) (front_buffer s) (termw s) (termh s)
    (cursor_x s) (cursor_y s) (foreground s) (background s) (input_mode s) e
    (sigwinch_draw s) (tty_size s) (tty_written s).

Definition set_sigwinch_draw (p : bool) (s : session) : session :=
  mkSession (back_buffer s) (front_buffer s) (termw s) (termh s)
    (cursor_x s) (cursor_y s) (foreground s) (background s) (input_mode s)
    (em s) p (tty_size s) (tty_written s).

Definition set_term_size (w h : Z) (s : session) : session :=
  mkSession (back_buffer s) (front_buffer s) w h
    (cursor_x s) (cursor_y s) (foreground s) (background s) (input_mode s)
    (em s) (sigwinch_draw s) (tty_size s) (tty_written s).

Definition set_tty_written (o : list (list out_item)) (s : session) : session :=
  mkSession (back_buffer s) (front_buffer s) (termw s) (termh s)
    (cursor_x s) (cursor_y s) (foreground s) (background s) (input_mode s)
    (em s) (sigwinch_draw s) (tty_size s) o.

Definition set_clear_attributes (fg bg : Attribute) (s : session) : session :=
  mkSession (back_buffer s) (front_buffer s) (termw s) (termh s)
    (cursor_x s) (cursor_y s) fg bg (input_mode s)
    (em s) (sigwinch_draw s) (tty_size s) (tty_written s).

Definition set_cells (cs : list Cell) (b : cellbuf) : cellbuf :=
  mkCellbuf (width b) (height b) cs.

Definition set_outbuf (o : list out_item) (e : emitter) : emitter :=
  mkEmitter o (lastx e) (lasty e) (lastfg e) (lastbg e).

Definition set_last (x y : Z) (e : emitter) : emitter :=
  mkEmitter (outbuf e) x y (lastfg e) (lastbg e).

Definition set_last_attr (fg bg : Attribute) (e : emitter) : emitter :=
  mkEmitter (outbuf e) (lastx e) (lasty e) fg bg.

Definition emit (i : out_item) (e : emitter) : emitter :=
  set_outbuf (outbuf e ++ [i]) e.

(** ** Outcomes: normal return or run-time panic *)

Inductive panic :=
  | DivideByZero | IndexOutOfRange | SliceBoundsOutOfRange | NilDereference.

Inductive outcome (A : Type) :=
  | Done (a : A)
  | Panicked (p : panic).

Arguments Done {A} a.

Arguments Panicked {A} p.

(** A call takes the session and gives an outcome and the session it left. *)
Definition M (A : Type) : Type := session -> outcome A * session.

Definition ret {A} (a : A) : M A := fun s => (Done a, s).

Definition raise {A} (p : panic) : M A := fun s => (Panicked p, s).

Definition bind {A B} (m : M A) (k : A -> M B) : M B :=
  fun s => match m s with
           | (Done a, s') => k a s'
           | (Panicked p, s') => (Panicked p, s')
           end.

Definition modify (f : session -> session) : M unit := fun s => (Done tt, f s).

Definition len {A} (l : list A) : Z := Z.of_nat (length l).

(** A grid as the package keeps it: row-major, [width*height] cells. *)
Definition cellbuf_ok (b : cellbuf) : Prop :=
  0 <= width b /\ 0 <= height b /\
  len (cells b) = width b * height b /\
  width b * height b <= GoInt.int_max /\
  width b <= GoInt.int_max /\ height b <= GoInt.int_max.

(** An initialised session: both grids are well formed and share their
    dimensions. *)
Definition initialized (s : session) : Prop :=
  cellbuf_ok (back_buffer s) /\ cellbuf_ok (front_buffer s) /\
  width (front_buffer s) = width (back_buffer s) /\
  height (front_buffer s) = height (back_buffer s).

(** ** PutCell, ChangeCell (api.go 296-312) *)

(** [cell *Cell] is a pointer: [None] is nil. *)
Definition PutCell (x y : Z) (cell : option Cell) : M unit := fun s =>
  let bb := back_buffer s in
  if (x <? 0) || (x >=? width bb) then (Done tt, s)
  else if (y <? 0) || (y >=? height bb) then (Done tt, s)
  else
    match cell with
    | None => (Panicked NilDereference, s)
    | Some c =>
        let i := GoInt.add (GoInt.mul y (width bb)) x in
        if (0 <=? i) && (i <? len (cells bb))
        then (Done tt, set_back_buffer
                         (set_cells (<[Z.to_nat i := c]> (cells bb)) bb) s)
        else (Panicked IndexOutOfRange, s)
    end.

Definition ChangeCell (x y : Z) (ch : rune) (fg bg : Attribute) : M unit :=
  let c := mkCell ch fg bg in
  PutCell x y (Some c).

(** ** Blit (api.go 323-343) *)

(** [s[lo:hi]] on a slice of capacity [cap]. *)
Definition slice_ok (lo hi cap : Z) : bool :=
  (0 <=? lo) && (lo <=? hi) && (hi <=? cap).

Definition slice {A} (l : list A) (lo hi : Z) : list A :=
  take (Z.to_nat (hi - lo)) (drop (Z.to_nat lo) l).

(** One iteration body: [copy(dst[dsti:dsti+w], src[srci:srci+w])], with
    [dst] aliasing [back_buffer.cells].  The destination slice is checked
    first.  The caller's [src] may have spare capacity; the loop never
    asks for more than its length, as [Blit_loop_ok] shows. *)
Definition Blit_copy (dsti srci w : Z) (src : list Cell) : M unit := fun s =>
  let bb := back_buffer s in
  let dst := cells bb in
  if negb (slice_ok dsti (GoInt.add dsti w) (len dst))
  then (Panicked SliceBoundsOutOfRange, s)
  else if negb (slice_ok srci (GoInt.add srci w) (len src))
  then (Panicked SliceBoundsOutOfRange, s)
  else
    let d := slice dst dsti (GoInt.add dsti w) in
    let c := slice src srci (GoInt.add srci w) in
    let n := Nat.min (length d) (length c) in
    (Done tt, set_back_buffer
                (set_cells (list_inserts (Z.to_nat dsti) (take n c) dst) bb) s).

(** [for i := 0; i < h; i++ { copy(...); dsti += width; srci += w }],
    [n] being the number of iterations left. *)
Fixpoint Blit_loop (n : nat) (dsti srci w : Z) (src : list Cell) : M unit :=
  match n with
  | O => ret tt
  | S n' =>
      fun s =>
        bind (Blit_copy dsti srci w src)
             (fun _ => Blit_loop n' (GoInt.add dsti (width (back_buffer s)))
                                 (GoInt.add srci w) w src) s
  end.

Definition Blit (x y w : Z) (cells : list Cell) : M unit := fun s =>
  if w =? 0 then (Panicked DivideByZero, s)
  else
    let h := GoInt.quot (len cells) w in
    let bb := back_buffer s in
    if (GoInt.add x w >? width bb) || (x <? 0) then (Done tt, s)
    else if (GoInt.add y h >? height bb) || (y <? 0) then (Done tt, s)
    else
      let dsti := GoInt.add (GoInt.mul y (width bb)) x in
      let srci := 0 in
      Blit_loop (Z.to_nat h) dsti srci w cells s.

(** ** The grid operations and helpers api.go calls *)

(** Modelled from the spec: [cellbuf.init] is defined outside api.go.
    [init(w,h)] allocates a grid of zero-valued cells. *)
Definition cellbuf_init (w h : Z) : cellbuf :=
  mkCellbuf w h (replicate (Z.to_nat (GoInt.mul w h)) (mkCell 0 0 0)).

(** Modelled from the spec: [cellbuf.clear] is defined outside api.go.
    [clear()] resets every cell to the session's clear-attributes with a
    blank character. *)
Definition cellbuf_clear (fg bg : Attribute) (b : cellbuf) : cellbuf :=
  set_cells (replicate (length (cells b)) (mkCell 32 fg bg)) b.

(** The hidden sentinel: [HideCursor] is documented in api.go as the
    shortcut for [SetCursor(-1, -1)]. *)
Definition cursor_hidden : Z := -1.

(** Modelled from the spec: [cellbuf.resize] is defined outside api.go.
    A resize reallocates and clears, with no content migration. *)
Definition cellbuf_resize (fg bg : Attribute) (w h : Z) : cellbuf :=
  cellbuf_clear fg bg (cellbuf_init w h).

(** Modelled from the spec: [update_size] is defined outside api.go.  It
    queries the terminal geometry and resizes both grids to it. *)
Definition update_size (s : session) : session :=
  let '(w, h) := tty_size s in
  let g := cellbuf_resize (foreground s) (background s) w h in
  set_front_buffer g (set_back_buffer g (set_term_size w h s)).

(** Modelled from the spec: [flush] is defined outside api.go.  All
    emitted output goes to the device as a single write, and the pending
    buffer is emptied. *)
Definition flush (s : session) : session :=
  set_tty_written (tty_written s ++ [outbuf (em s)])
    (set_em (set_outbuf [] (em s)) s).

(** [select { case <-sigwinch_draw: update_size(); default: }] *)
Definition consume_resize (s : session) : session :=
  if sigwinch_draw s then update_size (set_sigwinch_draw false s) else s.

(** A geometry for which a grid can be allocated. *)
Definition geometry_ok (g : Z * Z) : Prop :=
  0 <= fst g <= GoInt.int_max /\ 0 <= snd g <= GoInt.int_max /\
  fst g * snd g <= GoInt.int_max.

(** ** Cursor, input mode, Present and Clear (api.go 243-293, 379-408) *)

Section Api.

(** Helpers and constants of the package that api.go uses and does not
    define: the hidden-cursor test, the invalid coordinate, and the two
    emitters called for a cell that differs. *)
Variable is_cursor_hidden : Z -> Z -> bool.

Variable coord_invalid : Z.

Variable send_attr : Attribute -> Attribute -> emitter -> emitter.

Variable send_char : Z -> Z -> rune -> emitter -> emitter.

Definition SetCursor (x y : Z) : M unit := fun s =>
  let hidden_old := is_cursor_hidden (cursor_x s) (cursor_y s) in
  let e1 := if hidden_old && negb (is_cursor_hidden x y)
            then emit (WriteString t_show_cursor) (em s) else em s in
  let e2 := if negb hidden_old && is_cursor_hidden x y
            then emit (WriteString t_hide_cursor) e1 else e1 in
  let s1 := set_cursor x y (set_em e2 s) in
  let e3 := if negb (is_cursor_hidden (cursor_x s1) (cursor_y s1))
            then emit (Fprintf t_move_cursor (GoInt.add (cursor_y s1) 1)
                                             (GoInt.add (cursor_y s1) 1)) e2
            else e2 in
  (Done tt, set_em e3 s1).

Definition HideCursor : M unit := SetCursor cursor_hidden cursor_hidden.

Definition SetInputMode (mode : InputMode) : M InputMode := fun s =>
  let s1 := if negb (mode =? InputCurrent) then set_input_mode mode s else s in
  (Done (input_mode s1), s1).

Definition SetClearAttributes (fg bg : Attribute) : M unit :=
  modify (set_clear_attributes fg bg).

Definition Size : M (Z * Z) := fun s => (Done (termw s, termh s), s).

(** The body of the inner loop of [Present] at column [x] of row [y]. *)
Definition Present_cell (x y line_offset : Z) : M unit := fun s =>
  let cell_offset := GoInt.add line_offset x in
  let inb (l : list Cell) := (0 <=? cell_offset) && (cell_offset <? len l) in
  if negb (inb (cells (back_buffer s))) then (Panicked IndexOutOfRange, s)
  else if negb (inb (cells (front_buffer s))) then (Panicked IndexOutOfRange, s)
  else
    match cells (back_buffer s) !! Z.to_nat cell_offset,
          cells (front_buffer s) !! Z.to_nat cell_offset with
    | Some back, Some front =>
        if Cell_eqb back front then (Done tt, s)
        else
          let e := send_char x y (Ch back)
                     (send_attr (Fg back) (Bg back) (em s)) in
          let fb := front_buffer s in
          (Done tt,
           set_front_buffer
             (set_cells (<[Z.to_nat cell_offset := back]> (cells fb)) fb)
             (set_em e s))
    | _, _ => (Panicked IndexOutOfRange, s)
    end.

(** [for x := 0; x < front_buffer.width; x++], [n] iterations left. *)
Fixpoint Present_cols (n : nat) (x y line_offset : Z) : M unit :=
  match n with
  | O => ret tt
  | S n' => bind (Present_cell x y line_offset)
                 (fun _ => Present_cols n' (GoInt.add x 1) y line_offset)
  end.

(** [for y := 0; y < front_buffer.height; y++], [n] iterations left. *)
Fixpoint Present_rows (n : nat) (y : Z) : M unit :=
  match n with
  | O => ret tt
  | S n' =>
      fun s =>
        let line_offset := GoInt.mul y (width (front_buffer s)) in
        bind (Present_cols (Z.to_nat (width (front_buffer s))) 0 y line_offset)
             (fun _ => Present_rows n' (GoInt.add y 1)) s
  end.

Definition Present_diff : M unit := fun s =>
  Present_rows (Z.to_nat (height (front_buffer s))) 0 s.

Definition Present_cursor (s : session) : session :=
  if negb (is_cursor_hidden (cursor_x s) (cursor_y s))
  then set_em (emit (Fprintf t_move_cursor (GoInt.add (cursor_y s) 1)
                                           (GoInt.add (cursor_x s) 1)) (em s)) s
  else s.

Definition Present : M unit := fun s =>
  let s1 := set_em (set_last coord_invalid coord_invalid (em s)) s in
  let s2 := consume_resize s1 in
  match Present_diff s2 with
  | (Done _, s3) => (Done tt, flush (Present_cursor s3))
  | (Panicked p, s3) => (Panicked p, s3)
  end.

Definition Clear : M unit := fun s =>
  let s1 := consume_resize s in
  (Done tt,
   set_back_buffer
     (cellbuf_clear (foreground s1) (background s1) (back_buffer s1)) s1).

End Api.

(** ** The helpers api.go leaves to the rest of the package *)

(** Modelled from the spec: [is_cursor_hidden] is defined outside api.go.
    Coordinates equal to the hidden sentinel pair mean no cursor is
    drawn. *)
Definition is_cursor_hidden_spec (x y : Z) : bool :=
  (x =? cursor_hidden) && (y =? cursor_hidden).

(** Modelled from the spec: [coord_invalid] is defined outside api.go.
    It invalidates the last-emitted cursor cache: a coordinate no cell
    has. *)
Definition coord_invalid_spec : Z := -2.

(** Modelled from the spec: [send_attr] is defined outside api.go.  An
    attribute-change sequence is emitted when the cell's attribute pair
    differs from the last emitted pair. *)
Definition send_attr_spec (fg bg : Attribute) (e : emitter) : emitter :=
  if (fg =? lastfg e) && (bg =? lastbg e) then e
  else set_last_attr fg bg (emit (Fprintf t_sgr fg bg) e).

(** Modelled from the spec: [send_char] is defined outside api.go.  It
    emits a cursor move to the cell, 1-based row then column, and then
    the character. *)
Definition send_char_spec (x y : Z) (ch : rune) (e : emitter) : emitter :=
  set_last x y
    (emit (WriteRune ch)
       (emit (Fprintf t_move_cursor (GoInt.add y 1) (GoInt.add x 1)) e)).

(** [Present] and [SetCursor] with these helpers. *)
Definition Present_spec : M unit :=
  Present is_cursor_hidden_spec coord_invalid_spec send_attr_spec send_char_spec.

Definition SetCursor_spec : Z -> Z -> M unit := SetCursor is_cursor_hidden_spec.

(** ** The input reader and PollEvent (api.go 216-223, 346-370) *)

Module InputPipeline.

(** Where the reader goroutine stands:
    [n, _ := in.Read(buf)], [input_comm <- buf[:n]],
    [buf = (<-input_comm)[:128]]. *)
Inductive reader_pc :=
  | R_read
  | R_send (n : nat)
  | R_recv.

(** Where the caller stands: outside [PollEvent]; at [extract_event];
    blocked in the [select]; at [inbuf = append(inbuf, data...)] with a
    slice of [n] bytes; at [input_comm <- data]. *)
Inductive consumer_pc :=
  | C_idle
  | C_extract
  | C_select
  | C_append (n : nat)
  | C_handback (n : nat).

(** What happened, newest first: a read, an append to [inbuf], a slice
    handed back, a call of [extract_event]. *)
Inductive action :=
  | Read (chunk : list Z)
  | Append (bytes : list Z)
  | HandBack
  | Extract.

(** [store] is the array behind [buf]: every slice that travels over
    [input_comm] is a prefix of it, so a slice is its length. *)
Record pipeline := mkPipeline {
  store : list Z;
  reader : reader_pc;
  consumer : consumer_pc;
  inbuf : list Z;
  tty_input : list (list Z);    (* what the device gives to the next reads *)
  sigwinch_input : bool;
  history : list action
}.

Definition start (input : list (list Z)) : pipeline :=
  mkPipeline (replicate 128 0) R_read C_idle [] input false [].

Section Steps.

(** [extract_event], defined outside api.go: whether an event was
    decoded, and the bytes left pending. *)
Variable extract_event : list Z -> bool * list Z.

(** One step of either party; the two exchanges over the unbuffered
    channel [input_comm] are joint steps of sender and receiver. *)
Inductive step : pipeline -> pipeline -> Prop :=
  | step_read st c cpc ib rest sg h :
      (length c <= 128)%nat ->
      step (mkPipeline st R_read cpc ib (c :: rest) sg h)
           (mkPipeline (c ++ drop (length c) st) (R_send (length c)) cpc ib
              rest sg (Read c :: h))
  | step_forward st n ib inp sg h :
      step (mkPipeline st (R_send n) C_select ib inp sg h)
           (mkPipeline st R_recv (C_append n) ib inp sg h)
  | step_append st rpc n ib inp sg h :
      step (mkPipeline st rpc (C_append n) ib inp sg h)
           (mkPipeline st rpc (C_handback n) (ib ++ take n st) inp sg
              (Append (take n st) :: h))
  | step_handback st n ib inp sg h :
      step (mkPipeline st R_recv (C_handback n) ib inp sg h)
           (mkPipeline st R_read C_extract ib inp sg (HandBack :: h))
  | step_extract st rpc ib inp sg h :
      step (mkPipeline st rpc C_extract ib inp sg h)
           (mkPipeline st rpc
              (if fst (extract_event ib) then C_idle else C_select)
              (snd (extract_event ib)) inp sg (Extract :: h))
  | step_poll st rpc ib inp sg h :
      step (mkPipeline st rpc C_idle ib inp sg h)
           (mkPipeline st rpc C_extract ib inp sg h)
  | step_resize st rpc ib inp h :
      step (mkPipeline st rpc C_select ib inp true h)
           (mkPipeline st rpc C_idle ib inp false h)
  | step_signal st rpc cpc ib inp sg h :
      step (mkPipeline st rpc cpc ib inp sg h)
           (mkPipeline st rpc cpc ib inp true h).

Inductive reachable : pipeline -> Prop :=
  | reach_start input : reachable (start input)
  | reach_step p q : reachable p -> step p q -> reachable q.

(** The pending buffer that the appends and the calls of [extract_event]
    of a history build, starting from the empty one. *)
Fixpoint pending (h : list action) : list Z :=
  match h with
  | [] => []
  | Append b :: older => pending older ++ b
  | Extract :: older => snd (extract_event (pending older))
  | _ :: older => pending older
  end.

(** The bytes the calls of [extract_event] of a history took from the
    front of the pending buffer: at each call, what stood before the
    bytes it left. *)
Fixpoint extracted (h : list action) : list Z :=
  match h with
  | [] => []
  | Extract :: older =>
      extracted older ++
      take (length (pending older)
            - length (snd (extract_event (pending older))))
        (pending older)
  | _ :: older => extracted older
  end.

End Steps.

Fixpoint reads (h : list action) : list (list Z) :=
  match h with
  | [] => []
  | Read c :: h' => c :: reads h'
  | _ :: h' => reads h'
  end.

Fixpoint appends (h : list action) : list (list Z) :=
  match h with
  | [] => []
  | Append b :: h' => b :: appends h'
  | _ :: h' => appends h'
  end.

Fixpoint handbacks (h : list action) : nat :=
  match h with
  | [] => O
  | HandBack :: h' => S (handbacks h')
  | _ :: h' => handbacks h'
  end.

Definition is_read (a : action) : bool :=
  match a with Read _ => true | _ => false end.

(** Every read was issued when all earlier slices had been appended and
    handed back. *)
Fixpoint ping_pong (h : list action) : Prop :=
  match h with
  | [] => True
  | a :: older =>
      (is_read a = true ->
       length (appends older) = length (reads older) /\
       handbacks older = length (reads older)) /\
      ping_pong older
  end.

(** Who may touch the array behind [buf]. *)
Definition reader_owns (p : pipeline) : bool :=
  match reader p with R_recv => false | _ => true end.

Definition consumer_owns (p : pipeline) : bool :=
  match consumer p with C_append _ | C_handback _ => true | _ => false end.

(** The invariant behind the protocol. *)
Definition in_step (p : pipeline) : Prop :=
  let h := history p in
  ping_pong h /\
  match reader p, consumer p with
  | R_read, (C_idle | C_extract | C_select) =>
      appends h = reads h /\ handbacks h = length (reads h)
  | R_send n, (C_idle | C_extract | C_select)
  | R_recv, C_append n =>
      exists c, reads h = c :: appends h /\ take n (store p) = c /\
                handbacks h = length (appends h)
  | R_recv, C_handback n =>
      appends h = reads h /\ S (handbacks h) = length (reads h)
  | _, _ => False
  end.

(** A stand-in decoder for the examples: every pending byte is an event. *)
Definition extract_one_byte (ib : list Z) : bool * list Z :=
  match ib with
  | [] => (false, [])
  | _ :: rest => (true, rest)
  end.

(** One full exchange: [PollEvent] finds nothing pending and blocks, the
    reader reads two bytes and sends them, the caller appends them and
    hands the slice back. *)
Definition after_one_exchange : pipeline :=
  mkPipeline ([27; 91] ++ drop 2 (replicate 128 0)) R_read C_extract
    [27; 91] [] false [HandBack; Append [27; 91]; Read [27; 91]; Extract].

(** And then [extract_event] decodes an event from the first byte and
    [PollEvent] returns. *)
Definition after_one_event : pipeline :=
  mkPipeline ([27; 91] ++ drop 2 (replicate 128 0)) R_read C_idle
    [91] [] false
    [Extract; HandBack; Append [27; 91]; Read [27; 91]; Extract].

End InputPipeline.

(** ** Notions used to state the facts, and example sessions *)

(** The rows written by [n] iterations started at [dsti], [srci], with
    exact arithmetic. *)
Fixpoint blit_rows (n : nat) (dsti srci w W : Z) (src dst : list Cell)
  : list Cell :=
  match n with
  | O => dst
  | S n' =>
      blit_rows n' (dsti + W) (srci + w) w W src
        (list_inserts (Z.to_nat dsti) (slice src srci (srci + w)) dst)
  end.

(** The state after some cells were presented: the front cells and the
    output side changed, nothing else. *)
Definition presented_state (cs : list Cell) (e : emitter) (s : session)
  : session :=
  set_front_buffer (set_cells cs (front_buffer s)) (set_em e s).

(** [front'] is [front] with the cells of [back] at the indices in
    [lo, hi). *)
Definition presented (lo hi : Z) (back front front' : list Cell) : Prop :=
  length front' = length front /\
  forall i : nat,
    (lo <= Z.of_nat i < hi -> front' !! i = back !! i) /\
    (~ (lo <= Z.of_nat i < hi) -> front' !! i = front !! i).

(** What a call appended to the pending output. *)
Definition appended (s s' : session) : list out_item :=
  drop (length (outbuf (em s))) (outbuf (em s')).

(** The state [Init] leaves for a terminal of [w] columns and [h] rows. *)
Definition fresh_session (w h : Z) : session :=
  let g := cellbuf_clear 0 0 (cellbuf_init w h) in
  mkSession g g w h cursor_hidden cursor_hidden 0 0 InputEsc
    (mkEmitter [] 0 0 0 0) false (w, h) [].

Definition example_cell (n : Z) : Cell := mkCell n 0 0.

(** A session whose terminal was resized to 3 by 2 and signalled it. *)
Definition resized_session : session :=
  set_sigwinch_draw true
    (mkSession (back_buffer (fresh_session 2 2)) (front_buffer (fresh_session 2 2))
       2 2 cursor_hidden cursor_hidden 0 0 InputEsc (mkEmitter [] 0 0 0 0)
       false (3, 2) []).

(** ** A rectangle written cell by cell *)

(** A caller's loop over one row: [PutCell(x+j, y, &cs[j])] for each [j]. *)
Fixpoint PutCell_run (x y : Z) (cs : list Cell) : M unit :=
  match cs with
  | [] => ret tt
  | c :: cs' => bind (PutCell x y (Some c)) (fun _ => PutCell_run (x + 1) y cs')
  end.

(** The loop over [n] rows of width [w] taken from [cs] in row-major
    order. *)
Fixpoint PutCell_rows (n : nat) (x y : Z) (w : nat) (cs : list Cell) : M unit :=
  match n with
  | O => ret tt
  | S n' =>
      bind (PutCell_run x y (take w cs))
           (fun _ => PutCell_rows n' x (y + 1) w (drop w cs))
  end.

(** ** What a scan of [Present] hands to the emitters *)

(** The back cell at index [k] when it differs from the front cell. *)
Definition changed_at (back front : list Cell) (k : nat) : option Cell :=
  match back !! k, front !! k with
  | Some b, Some f => if Cell_eqb b f then None else Some b
  | _, _ => None
  end.

(** The differing cells in row-major order, each with its column and
    row in a grid of width [W]. *)
Definition differing_cells (W : Z) (back front : list Cell)
  : list (Z * Z * Cell) :=
  omap (fun k => (fun b => (Z.of_nat k mod W, Z.of_nat k / W, b))
                   <$> changed_at back front k)
       (seq 0 (length back)).

Section Emitted.

Variable send_attr : Attribute -> Attribute -> emitter -> emitter.

Variable send_char : Z -> Z -> rune -> emitter -> emitter.

(** The two calls of the loop body for one cell:
    [send_attr(back.Fg, back.Bg); send_char(x, y, back.Ch)]. *)
Definition emit_cell (e : emitter) (c : Z * Z * Cell) : emitter :=
  let '(x, y, b) := c in
  send_char x y (Ch b) (send_attr (Fg b) (Bg b) e).

Definition emit_cells (l : list (Z * Z * Cell)) (e : emitter) : emitter :=
  foldl emit_cell e l.

(** The emitter after the cell at index [k], visited as column [x] of
    row [y]. *)
Definition cell_step (x y : Z) (k : nat) (back front : list Cell)
    (e : emitter) : emitter :=
  match changed_at back front k with
  | Some b => emit_cell e (x, y, b)
  | None => e
  end.

(** The emitter after [n] columns of row [y] from column [x] on. *)
Fixpoint cols_step (n : nat) (x y lo : Z) (back front : list Cell)
    (e : emitter) : emitter :=
  match n with
  | O => e
  | S n' =>
      cols_step n' (x + 1) y lo back front
        (cell_step x y (Z.to_nat (lo + x)) back front e)
  end.

(** The emitter after [n] rows of width [W] from row [y] on. *)
Fixpoint rows_step (n : nat) (y W : Z) (back front : list Cell)
    (e : emitter) : emitter :=
  match n with
  | O => e
  | S n' =>
      rows_step n' (y + 1) W back front
        (cols_step (Z.to_nat W) 0 y (y * W) back front e)
  end.

End Emitted.

(** ** Init and Shutdown (api.go 159-240) *)

(** [syscall.Termios]: the four flag words and the control characters. *)
Record termios := mkTermios {
  Iflag : Z;
  Oflag : Z;
  Cflag : Z;
  Lflag : Z;
  Cc : list Z
}.

(** The constants of package [syscall] that [Init] names; their values
    belong to the platform. *)
Record syscall_consts := mkSyscallConsts {
  IGNBRK : Z; BRKINT : Z; PARMRK : Z; ISTRIP : Z;
  INLCR : Z; IGNCR : Z; ICRNL : Z; IXON : Z;
  OPOST : Z;
  ECHO : Z; ECHONL : Z; ICANON : Z; ISIG : Z; IEXTEN : Z;
  CSIZE : Z; PARENB : Z; CS8 : Z;
  VMIN : nat; VTIME : nat
}.

(** The attributes [Init] derives from the ones it read:
    [tios.Iflag &^= ...; tios.Oflag &^= ...; tios.Lflag &^= ...;
     tios.Cflag &^= ...; tios.Cflag |= CS8; tios.Cc[VMIN] = 1;
     tios.Cc[VTIME] = 0]. *)
Definition raw_mode (K : syscall_consts) (t : termios) : termios :=
  mkTermios
    (Z.ldiff (Iflag t)
       (Z.lor (IGNBRK K) (Z.lor (BRKINT K) (Z.lor (PARMRK K)
          (Z.lor (ISTRIP K) (Z.lor (INLCR K) (Z.lor (IGNCR K)
             (Z.lor (ICRNL K) (IXON K)))))))))
    (Z.ldiff (Oflag t) (OPOST K))
    (Z.lor (Z.ldiff (Cflag t) (Z.lor (CSIZE K) (PARENB K))) (CS8 K))
    (Z.ldiff (Lflag t)
       (Z.lor (ECHO K) (Z.lor (ECHONL K) (Z.lor (ICANON K)
          (Z.lor (ISIG K) (IEXTEN K))))))
    (<[VTIME K := 0]> (<[VMIN K := 1]> (Cc t))).

(** The values on Linux, for the examples. *)
Definition linux_consts : syscall_consts :=
  mkSyscallConsts 0x1 0x2 0x8 0x20 0x40 0x80 0x100 0x400
    0x1
    0x8 0x40 0x2 0x1 0x8000
    0x30 0x100 0x30
    6 5.

Section Lifecycle.

(** Go's [error] values. *)
Variable error : Type.

Variable K : syscall_consts.

(** The package state [Init] and [Shutdown] deal with beside the session:
    the two files, the saved attributes, and what the process has done to
    its surroundings so far. *)
Record process := mkProcess {
  sess : session;
  out_open : bool;               (* [out] is an open file *)
  in_open : bool;                (* [in] is an open file *)
  notified : bool;               (* both signal.Notify calls were made *)
  orig_tios : termios;
  applied : list termios;        (* attributes given to the device, oldest first *)
  readers : nat                  (* reader goroutines started *)
}.

(** What the fallible calls of [Init] answer, in the order of the calls:
    [os.Create], [os.Open], [setup_term], [tcgetattr] (an error, or the
    attributes of the device), [tcsetattr]. *)
Record init_results := mkInitResults {
  r_create : option error;
  r_open : option error;
  r_setup : option error;
  r_getattr : error + termios;
  r_setattr : option error
}.

(** [out.WriteString(funcs[c])]: one write to the device. *)
Definition out_WriteString (c : capability) (s : session) : session :=
  set_tty_written (tty_written s ++ [[WriteString c]]) s.

(** The tail of [Init] once the terminal is in raw mode: the four
    sequences, the size query, both grids allocated and cleared. *)
Definition Init_screen (s : session) : session :=
  let s1 := out_WriteString t_clear_screen
              (out_WriteString t_hide_cursor
                 (out_WriteString t_enter_keypad
                    (out_WriteString t_enter_ca s))) in
  let '(w, h) := tty_size s1 in
  let s2 := set_term_size w h s1 in
  let g := cellbuf_clear (foreground s2) (background s2) (cellbuf_init w h) in
  set_front_buffer g (set_back_buffer g s2).

Definition Init (r : init_results) (p : process) : option error * process :=
  match r_create r with
  | Some e =>
      (Some e, mkProcess (sess p) false (in_open p) (notified p)
                 (orig_tios p) (applied p) (readers p))
  | None =>
      match r_open r with
      | Some e =>
          (Some e, mkProcess (sess p) true false (notified p)
                     (orig_tios p) (applied p) (readers p))
      | None =>
          match r_setup r with
          | Some e =>
              (Some e, mkProcess (sess p) true true (notified p)
                         (orig_tios p) (applied p) (readers p))
          | None =>
              match r_getattr r with
              | inl e =>
                  (Some e, mkProcess (sess p) true true true
                             (orig_tios p) (applied p) (readers p))
              | inr t =>
                  match r_setattr r with
                  | Some e =>
                      (Some e, mkProcess (sess p) true true true
                                 t (applied p) (readers p))
                  | None =>
                      (None, mkProcess (Init_screen (sess p)) true true true
                               t (applied p ++ [raw_mode K t])
                               (S (readers p)))
                  end
              end
          end
      end
  end.

(** [Shutdown], given what its [tcsetattr] answers (the answer itself is
    dropped by the code). *)
Definition Shutdown (setattr : option error) (p : process) : process :=
  let s := out_WriteString t_exit_keypad
             (out_WriteString t_exit_ca
                (out_WriteString t_clear_screen
                   (out_WriteString t_sgr0
                      (out_WriteString t_show_cursor (sess p))))) in
  mkProcess s false false (notified p) (orig_tios p)
    (match setattr with
     | None => applied p ++ [orig_tios p]
     | Some _ => applied p
     end)
    (readers p).

(** Any call of the drawing API in between: it sees the session only. *)
Definition with_session (s : session) (p : process) : process :=
  mkProcess s (out_open p) (in_open p) (notified p) (orig_tios p)
    (applied p) (readers p).

End Lifecycle.

(** Attributes of a terminal in its usual line mode on Linux, and a
    process that has not called [Init] yet, for the examples. *)
Definition cooked_tios : termios :=
  mkTermios 0x500 0x5 0xBF 0x8A3B (replicate 32 0).

Definition example_process : process :=
  mkProcess (fresh_session 2 2) false false false
    (mkTermios 0 0 0 0 (replicate 32 0)) [] 0.

Definition all_succeed : init_results unit :=
  mkInitResults unit None None None (inr cooked_tios) None.

(** ** Key and attribute constants (api.go 39-135) *)

(** The first [const] block: [KeyF1 Key = 0xFFFF - iota] and the 21 names
    after it, each with the next [iota]. *)
Inductive function_key :=
  | KeyF1 | KeyF2 | KeyF3 | KeyF4 | KeyF5 | KeyF6
  | KeyF7 | KeyF8 | KeyF9 | KeyF10 | KeyF11 | KeyF12
  | KeyInsert | KeyDelete | KeyHome | KeyEnd | KeyPgup | KeyPgdn
  | KeyArrowUp | KeyArrowDown | KeyArrowLeft | KeyArrowRight.

Definition function_keys : list function_key :=
  [KeyF1; KeyF2; KeyF3; KeyF4; KeyF5; KeyF6;
   KeyF7; KeyF8; KeyF9; KeyF10; KeyF11; KeyF12;
   KeyInsert; KeyDelete; KeyHome; KeyEnd; KeyPgup; KeyPgdn;
   KeyArrowUp; KeyArrowDown; KeyArrowLeft; KeyArrowRight].

(** The position of a name in its block. *)
Definition iota (k : function_key) : Z :=
  match k with
  | KeyF1 => 0 | KeyF2 => 1 | KeyF3 => 2 | KeyF4 => 3
  | KeyF5 => 4 | KeyF6 => 5 | KeyF7 => 6 | KeyF8 => 7
  | KeyF9 => 8 | KeyF10 => 9 | KeyF11 => 10 | KeyF12 => 11
  | KeyInsert => 12 | KeyDelete => 13 | KeyHome => 14 | KeyEnd => 15
  | KeyPgup => 16 | KeyPgdn => 17
  | KeyArrowUp => 18 | KeyArrowDown => 19
  | KeyArrowLeft => 20 | KeyArrowRight => 21
  end.

(** [Key] is [uint16]. *)
Definition Key := Z.

Definition function_key_code (k : function_key) : Key := 0xFFFF - iota k.

(** The second [const] block, in the order of the source: every name with
    the value written next to it. *)
Inductive control_key :=
  | KeyCtrlTilde | KeyCtrl2 | KeyCtrlA | KeyCtrlB | KeyCtrlC | KeyCtrlD
  | KeyCtrlE | KeyCtrlF | KeyCtrlG | KeyBackspace | KeyCtrlH | KeyTab
  | KeyCtrlI | KeyCtrlJ | KeyCtrlK | KeyCtrlL | KeyEnter | KeyCtrlM
  | KeyCtrlN | KeyCtrlO | KeyCtrlP | KeyCtrlQ | KeyCtrlR | KeyCtrlS
  | KeyCtrlT | KeyCtrlU | KeyCtrlV | KeyCtrlW | KeyCtrlX | KeyCtrlY
  | KeyCtrlZ | KeyEsc | KeyCtrlLsqBracket | KeyCtrl3 | KeyCtrl4
  | KeyCtrlBackslash | KeyCtrl5 | KeyCtrlRsqBracket | KeyCtrl6 | KeyCtrl7
  | KeyCtrlSlash | KeyCtrlUnderscore | KeySpace | KeyBackspace2 | KeyCtrl8.

Definition control_key_code (k : control_key) : Key :=
  match k with
  | KeyCtrlTilde => 0x00 | KeyCtrl2 => 0x00
  | KeyCtrlA => 0x01 | KeyCtrlB => 0x02 | KeyCtrlC => 0x03
  | KeyCtrlD => 0x04 | KeyCtrlE => 0x05 | KeyCtrlF => 0x06
  | KeyCtrlG => 0x07
  | KeyBackspace => 0x08 | KeyCtrlH => 0x08
  | KeyTab => 0x09 | KeyCtrlI => 0x09
  | KeyCtrlJ => 0x0A | KeyCtrlK => 0x0B | KeyCtrlL => 0x0C
  | KeyEnter => 0x0D | KeyCtrlM => 0x0D
  | KeyCtrlN => 0x0E | KeyCtrlO => 0x0F | KeyCtrlP => 0x10
  | KeyCtrlQ => 0x11 | KeyCtrlR => 0x12 | KeyCtrlS => 0x13
  | KeyCtrlT => 0x14 | KeyCtrlU => 0x15 | KeyCtrlV => 0x16
  | KeyCtrlW => 0x17 | KeyCtrlX => 0x18 | KeyCtrlY => 0x19
  | KeyCtrlZ => 0x1A
  | KeyEsc => 0x1B | KeyCtrlLsqBracket => 0x1B | KeyCtrl3 => 0x1B
  | KeyCtrl4 => 0x1C | KeyCtrlBackslash => 0x1C
  | KeyCtrl5 => 0x1D | KeyCtrlRsqBracket => 0x1D
  | KeyCtrl6 => 0x1E
  | KeyCtrl7 => 0x1F | KeyCtrlSlash => 0x1F | KeyCtrlUnderscore => 0x1F
  | KeySpace => 0x20
  | KeyBackspace2 => 0x7F | KeyCtrl8 => 0x7F
  end.

(** The colours, [ColorBlack Attribute = iota] onwards, and the two
    attributes. *)
Definition ColorBlack : Attribute := 0.
Definition ColorRed : Attribute := 1.
Definition ColorGreen : Attribute := 2.
Definition ColorYellow : Attribute := 3.
Definition ColorBlue : Attribute := 4.
Definition ColorMagenta : Attribute := 5.
Definition ColorCyan : Attribute := 6.
Definition ColorWhite : Attribute := 7.
Definition ColorDefault : Attribute := 8.

Definition AttrBold : Attribute := 0x10.
Definition AttrUnderline : Attribute := 0x20.

Definition colors : list Attribute :=
  [ColorBlack; ColorRed; ColorGreen; ColorYellow; ColorBlue;
   ColorMagenta; ColorCyan; ColorWhite; ColorDefault].

(** [color | AttrBold | AttrUnderline], each attribute being there or
    not. *)
Definition styled (color : Attribute) (bold underline : bool) : Attribute :=
  Z.lor color
    (Z.lor (if bold then AttrBold else 0)
           (if underline then AttrUnderline else 0)).

(** ** Runs of the input pipeline from a given device input *)

Section Runs.

Import InputPipeline.

Variable extract_event : list Z -> bool * list Z.

Inductive run_from (p0 : pipeline) : pipeline -> Prop :=
  | run_here : run_from p0 p0
  | run_step p q : run_from p0 p -> step extract_event p q -> run_from p0 q.

End Runs.

(** What the reader has taken from the device so far, chunk by chunk, and
    the array it reads into. *)
Definition taken_in_order (input : list (list Z))
    (p : InputPipeline.pipeline) : Prop :=
  rev (InputPipeline.reads (InputPipeline.history p))
    ++ InputPipeline.tty_input p = input /\
  Forall (fun c => (length c <= 128)%nat)
    (InputPipeline.reads (InputPipeline.history p)) /\
  length (InputPipeline.store p) = 128%nat.

(** ** Programs over the drawing API *)

(** One call of the API by the program, or the terminal taking a new
    size and signalling it between two calls. *)
Inductive call :=
  | CallPutCell (x y : Z) (cell : option Cell)
  | CallChangeCell (x y : Z) (ch : rune) (fg bg : Attribute)
  | CallBlit (x y w : Z) (cells : list Cell)
  | CallSetCursor (x y : Z)
  | CallHideCursor
  | CallSetInputMode (mode : InputMode)
  | CallSetClearAttributes (fg bg : Attribute)
  | CallClear
  | CallPresent
  | CallSize
  | Resized (w h : Z).

Definition set_tty_size (g : Z * Z) (s : session) : session :=
  mkSession (back_buffer s) (front_buffer s) (termw s) (termh s)
    (cursor_x s) (cursor_y s) (foreground s) (background s) (input_mode s)
    (em s) (sigwinch_draw s) g (tty_written s).

Definition resized (w h : Z) (s : session) : session :=
  set_sigwinch_draw true (set_tty_size (w, h) s).

Section Calls.

Variable is_cursor_hidden : Z -> Z -> bool.

Variable coord_invalid : Z.

Variable send_attr : Attribute -> Attribute -> emitter -> emitter.

Variable send_char : Z -> Z -> rune -> emitter -> emitter.

Definition do_call (c : call) : M unit :=
  match c with
  | CallPutCell x y cell => PutCell x y cell
  | CallChangeCell x y ch fg bg => ChangeCell x y ch fg bg
  | CallBlit x y w cells => Blit x y w cells
  | CallSetCursor x y => SetCursor is_cursor_hidden x y
  | CallHideCursor => HideCursor is_cursor_hidden
  | CallSetInputMode mode => bind (SetInputMode mode) (fun _ => ret tt)
  | CallSetClearAttributes fg bg => SetClearAttributes fg bg
  | CallClear => Clear
  | CallPresent => Present is_cursor_hidden coord_invalid send_attr send_char
  | CallSize => bind Size (fun _ => ret tt)
  | Resized w h => modify (resized w h)
  end.

(** The calls in order; a panic ends the program. *)
Fixpoint do_calls (l : list call) : M unit :=
  match l with
  | [] => ret tt
  | c :: l' => bind (do_call c) (fun _ => do_calls l')
  end.

End Calls.

(** The two calls that take a pointer or a slice from the caller. *)
Definition takes_callers_memory (c : call) : bool :=
  match c with
  | CallPutCell _ _ None => true
  | CallBlit _ _ _ _ => true
  | _ => false
  end.

Definition size_fits (c : call) : Prop :=
  match c with
  | Resized w h => geometry_ok (w, h)
  | _ => True
  end.

(** [Size] and the back grid agree. *)
Definition size_agrees (s : session) : Prop :=
  termw s = width (back_buffer s) /\ termh s = height (back_buffer s).

(** What holds of a session between two calls. *)
Definition between_calls (s : session) : Prop :=
  initialized s /\ size_agrees s /\
  (sigwinch_draw s = true -> geometry_ok (tty_size s)).

(** * Part II: the facts *)

(** ** Go's [int]: when the operations are exact *)

Module GoIntFacts.

Import GoInt.

Ltac int_consts :=
  unfold is_int, wrap, int_min, int_max, int_bits in *;
  change (2 ^ (64 - 1)) with 9223372036854775808 in *;
  change (2 ^ 64) with 18446744073709551616 in *.

Lemma wrap_is_int z : is_int (wrap z).
Proof.
  int_consts.
  pose proof (Z.mod_pos_bound (z + 9223372036854775808)
                18446744073709551616 ltac:(lia)). lia.
Qed.

Lemma wrap_exact z : is_int z -> wrap z = z.
Proof. int_consts. intros H. rewrite Z.mod_small by lia. lia. Qed.

Lemma wrap_congr z : exists k, wrap z = z + k * 2 ^ 64.
Proof.
  int_consts.
  exists (- ((z + 9223372036854775808) / 18446744073709551616)).
  pose proof (Z.div_mod (z + 9223372036854775808)
                18446744073709551616 ltac:(lia)). lia.
Qed.

Lemma add_exact a b : is_int (a + b) -> add a b = a + b.
Proof. apply wrap_exact. Qed.

Lemma mul_exact a b : is_int (a * b) -> mul a b = a * b.
Proof. apply wrap_exact. Qed.

Lemma quot_exact a b : 0 <= a -> a <= int_max -> 0 < b -> quot a b = a / b.
Proof.
  intros Ha Ha' Hb. unfold quot. rewrite Z.quot_div_nonneg by lia.
  apply wrap_exact.
  pose proof (Z.div_pos a b Ha Hb).
  assert (a / b <= a) by (apply Z.div_le_upper_bound; nia).
  int_consts. lia.
Qed.

End GoIntFacts.

(** ** Cells and sessions *)

Lemma Cell_eqb_eq a b : Cell_eqb a b = true <-> a = b.
Proof.
  destruct a, b. unfold Cell_eqb. simpl.
  rewrite !andb_true_iff, !Z.eqb_eq. split.
  - intros [[-> ->] ->]. reflexivity.
  - intros [= -> -> ->]. auto.
Qed.

Lemma Cell_eqb_refl a : Cell_eqb a a = true.
Proof. apply Cell_eqb_eq. reflexivity. Qed.

Lemma set_back_buffer_id s :
  set_back_buffer (set_cells (cells (back_buffer s)) (back_buffer s)) s = s.
Proof. destruct s as [[? ? ?] ? ? ? ? ? ? ? ? ? ? ? ?]. reflexivity. Qed.

Lemma cellbuf_init_ok w h :
  geometry_ok (w, h) -> cellbuf_ok (cellbuf_init w h).
Proof.
  intros (Hw & Hh & Hm). simpl in Hw, Hh, Hm.
  unfold cellbuf_ok, cellbuf_init, len. simpl.
  assert (Hm0 : 0 <= w * h) by (apply Z.mul_nonneg_nonneg; lia).
  rewrite GoIntFacts.mul_exact by (GoIntFacts.int_consts; lia).
  rewrite length_replicate. lia.
Qed.

Lemma cellbuf_clear_ok fg bg b : cellbuf_ok b -> cellbuf_ok (cellbuf_clear fg bg b).
Proof.
  unfold cellbuf_ok, cellbuf_clear, len. simpl.
  rewrite length_replicate. tauto.
Qed.

Lemma fresh_session_initialized w h :
  geometry_ok (w, h) -> initialized (fresh_session w h).
Proof.
  intros Hg. unfold initialized, fresh_session. simpl.
  pose proof (cellbuf_clear_ok 0 0 _ (cellbuf_init_ok w h Hg)). auto.
Qed.

(** ** PutCell and ChangeCell: bounds contract *)

Section PutCellFacts.

Lemma cell_index_in_range (b : cellbuf) x y :
  cellbuf_ok b -> 0 <= x < width b -> 0 <= y < height b ->
  0 <= y * width b + x < len (cells b) /\
  GoInt.add (GoInt.mul y (width b)) x = y * width b + x.
Proof.
  intros (Hw & Hh & Hlen & Hmax) Hx Hy.
  assert (Hi : 0 <= y * width b + x < width b * height b) by nia.
  split; [lia |].
  rewrite GoIntFacts.mul_exact.
  - apply GoIntFacts.add_exact. GoIntFacts.int_consts. lia.
  - GoIntFacts.int_consts. nia.
Qed.

(** C2. [PutCell x y c] stores [c] at the row-major index [y*width+x] of
    the back grid exactly when [0 <= x < width] and [0 <= y < height], and
    changes nothing else; for any other coordinates, negative ones
    included, it returns normally with the session untouched (whatever
    the pointer, nil included); [ChangeCell] is [PutCell] on the cell
    built from its three fields. *)
Theorem PutCell_bounds_contract (s : session) (x y : Z) (c : Cell) :
  initialized s ->
  let bb := back_buffer s in
  (0 <= x < width bb /\ 0 <= y < height bb ->
     let i := Z.to_nat (y * width bb + x) in
     PutCell x y (Some c) s =
       (Done tt, set_back_buffer (set_cells (<[i := c]> (cells bb)) bb) s) /\
     (<[i := c]> (cells bb)) !! i = Some c /\
     (forall j : nat, j <> i -> (<[i := c]> (cells bb)) !! j = cells bb !! j)) /\
  (~ (0 <= x < width bb /\ 0 <= y < height bb) ->
     forall p : option Cell, PutCell x y p s = (Done tt, s)) /\
  (forall ch fg bg,
     ChangeCell x y ch fg bg s = PutCell x y (Some (mkCell ch fg bg)) s).
Proof.
  intros (Hb & _) bb. split; [| split].
  - intros [Hx Hy] i.
    destruct (cell_index_in_range bb x y Hb Hx Hy) as [Hi Hadd].
    split; [| split].
    + unfold PutCell. fold bb.
      replace (x <? 0) with false by lia.
      replace (x >=? width bb) with false by lia.
      replace (y <? 0) with false by lia.
      replace (y >=? height bb) with false by lia.
      simpl. rewrite Hadd.
      replace (0 <=? y * width bb + x) with true by lia.
      replace (y * width bb + x <? len (cells bb)) with true by lia.
      reflexivity.
    + apply list_lookup_insert_eq. unfold len in Hi. lia.
    + intros j Hj. apply list_lookup_insert_ne. congruence.
  - intros Hout p. unfold PutCell. fold bb.
    destruct (x <? 0) eqn:E1; [reflexivity |].
    destruct (x >=? width bb) eqn:E2; [reflexivity |].
    destruct (y <? 0) eqn:E3; [reflexivity |].
    destruct (y >=? height bb) eqn:E4; [reflexivity |].
    exfalso. apply Hout. lia.
  - reflexivity.
Qed.

Lemma PutCell_bounds_contract_witness :
  PutCell 1 2 (Some (example_cell 7)) (fresh_session 4 3)
    = (Done tt,
       set_back_buffer
         (set_cells (<[9%nat := example_cell 7]>
                       (cells (back_buffer (fresh_session 4 3))))
            (back_buffer (fresh_session 4 3)))
         (fresh_session 4 3)) /\
  PutCell (-1) 0 (Some (example_cell 7)) (fresh_session 4 3)
    = (Done tt, fresh_session 4 3) /\
  PutCell 4 0 (Some (example_cell 7)) (fresh_session 4 3)
    = (Done tt, fresh_session 4 3).
Proof.
  assert (Hi : initialized (fresh_session 4 3))
    by (vm_compute; repeat split; discriminate || reflexivity).
  split; [| split].
  - apply (proj1 (PutCell_bounds_contract (fresh_session 4 3) 1 2
                    (example_cell 7) Hi)).
    vm_compute. repeat split; discriminate.
  - apply (proj1 (proj2 (PutCell_bounds_contract (fresh_session 4 3) (-1) 0
                           (example_cell 7) Hi))).
    vm_compute. intros [[Hneg _] _]. apply Hneg. reflexivity.
  - apply (proj1 (proj2 (PutCell_bounds_contract (fresh_session 4 3) 4 0
                           (example_cell 7) Hi))).
    vm_compute. intros [[_ Hlt] _]. discriminate Hlt.
Defined.

End PutCellFacts.

(** ** Blit: what the row loop computes *)

Section BlitFacts.

Lemma length_slice {A} (l : list A) lo hi :
  0 <= lo -> lo <= hi -> hi <= len l ->
  length (slice l lo hi) = Z.to_nat (hi - lo).
Proof.
  intros Hlo Hhi Hlen. unfold slice, len in *.
  rewrite length_take, length_drop. lia.
Qed.

Lemma lookup_slice {A} (l : list A) lo hi (j : nat) :
  0 <= lo -> Z.of_nat j < hi - lo ->
  slice l lo hi !! j = l !! Z.to_nat (lo + Z.of_nat j).
Proof.
  intros Hlo Hj. unfold slice.
  rewrite lookup_take_lt by lia. rewrite lookup_drop.
  f_equal. lia.
Qed.

Lemma blit_rows_length n : forall dsti srci w W src dst,
  length (blit_rows n dsti srci w W src dst) = length dst.
Proof.
  induction n as [| n IH]; intros; simpl; [reflexivity |].
  rewrite IH. apply length_inserts.
Qed.

Lemma Blit_copy_ok dsti srci w src s :
  0 < w -> 0 <= dsti -> dsti + w <= len (cells (back_buffer s)) ->
  len (cells (back_buffer s)) <= GoInt.int_max ->
  0 <= srci -> srci + w <= len src -> len src <= GoInt.int_max ->
  Blit_copy dsti srci w src s =
    (Done tt,
     set_back_buffer
       (set_cells (list_inserts (Z.to_nat dsti) (slice src srci (srci + w))
                     (cells (back_buffer s)))
          (back_buffer s)) s).
Proof.
  intros Hw Hd Hdw Hmax Hs Hsw Hsmax. unfold Blit_copy.
  assert (Ed : GoInt.add dsti w = dsti + w)
    by (apply GoIntFacts.add_exact; GoIntFacts.int_consts; lia).
  assert (Es : GoInt.add srci w = srci + w)
    by (apply GoIntFacts.add_exact; GoIntFacts.int_consts; lia).
  rewrite Ed, Es. unfold slice_ok.
  replace (0 <=? dsti) with true by lia.
  replace (dsti <=? dsti + w) with true by lia.
  replace (dsti + w <=? len (cells (back_buffer s))) with true by lia.
  replace (0 <=? srci) with true by lia.
  replace (srci <=? srci + w) with true by lia.
  replace (srci + w <=? len src) with true by lia.
  simpl. rewrite !length_slice by lia.
  replace (dsti + w - dsti) with w by lia.
  replace (srci + w - srci) with w by lia.
  rewrite Nat.min_id.
  rewrite take_ge; [reflexivity |].
  rewrite length_slice by lia. lia.
Qed.

Lemma Blit_loop_ok w src n : forall dsti srci s,
  0 < w -> 0 <= width (back_buffer s) ->
  len (cells (back_buffer s)) <= GoInt.int_max ->
  len src <= GoInt.int_max ->
  0 <= dsti -> 0 <= srci ->
  (n <> O ->
   dsti + (Z.of_nat n - 1) * width (back_buffer s) + w
     <= len (cells (back_buffer s))) ->
  srci + Z.of_nat n * w <= len src ->
  Blit_loop n dsti srci w src s =
    (Done tt,
     set_back_buffer
       (set_cells (blit_rows n dsti srci w (width (back_buffer s)) src
                     (cells (back_buffer s)))
          (back_buffer s)) s).
Proof.
  induction n as [| n IH]; intros dsti srci s Hw HW Hmax Hsmax Hd Hs Hrows Hsrc.
  - simpl. unfold ret. destruct s as [[? ? ?] ? ? ? ? ? ? ? ? ? ? ? ?].
    reflexivity.
  - cbn [Blit_loop blit_rows]. unfold bind.
    specialize (Hrows ltac:(discriminate)).
    rewrite Blit_copy_ok by nia.
    set (s' := set_back_buffer _ s).
    assert (Es : GoInt.add srci w = srci + w)
      by (apply GoIntFacts.add_exact; GoIntFacts.int_consts; nia).
    rewrite Es.
    assert (Hlen' : len (cells (back_buffer s')) = len (cells (back_buffer s))).
    { unfold s', len. simpl. rewrite length_inserts. reflexivity. }
    destruct n as [| n'].
    + simpl. unfold ret. reflexivity.
    + assert (Ed : GoInt.add dsti (width (back_buffer s))
                   = dsti + width (back_buffer s))
        by (apply GoIntFacts.add_exact; GoIntFacts.int_consts; nia).
      rewrite Ed.
      rewrite IH; try (rewrite ?Hlen'; unfold s'; simpl; nia).
      unfold s'. simpl. reflexivity.
Qed.

Lemma blit_rows_lookup_out w W src n : forall dsti srci dst (k : nat),
  0 < w -> 0 <= W -> 0 <= dsti -> 0 <= srci ->
  srci + Z.of_nat n * w <= len src ->
  (forall i, 0 <= i < Z.of_nat n ->
     ~ (dsti + i * W <= Z.of_nat k < dsti + i * W + w)) ->
  blit_rows n dsti srci w W src dst !! k = dst !! k.
Proof.
  induction n as [| n IH]; intros dsti srci dst k Hw HW Hd Hs Hsrc Hout;
    [reflexivity |].
  cbn [blit_rows]. rewrite IH; try lia.
  - specialize (Hout 0 ltac:(lia)).
    destruct (decide (Z.of_nat k < dsti)) as [Hlt | Hge].
    + apply list_lookup_inserts_lt. lia.
    + apply list_lookup_inserts_ge. rewrite length_slice by lia. lia.
  - intros i Hi Hin. apply (Hout (i + 1) ltac:(lia)). lia.
Qed.

Lemma blit_rows_lookup_in w W src n : forall dsti srci dst i j,
  0 < w -> w <= W -> 0 <= dsti -> 0 <= srci ->
  dsti + (Z.of_nat n - 1) * W + w <= len dst ->
  srci + Z.of_nat n * w <= len src ->
  0 <= i < Z.of_nat n -> 0 <= j < w ->
  blit_rows n dsti srci w W src dst !! Z.to_nat (dsti + i * W + j)
    = src !! Z.to_nat (srci + i * w + j).
Proof.
  induction n as [| n IH]; intros dsti srci dst i j Hw HW Hd Hs Hdst Hsrc Hi Hj;
    [lia |].
  cbn [blit_rows].
  destruct (decide (i = 0)) as [-> | Hne].
  - rewrite blit_rows_lookup_out; try lia.
    + rewrite list_lookup_inserts.
      * rewrite lookup_slice by lia. f_equal. lia.
      * rewrite length_slice by lia. lia.
      * unfold len in Hdst. nia.
    + intros i' Hi' Hin. nia.
  - replace (dsti + i * W + j) with (dsti + W + (i - 1) * W + j) by lia.
    replace (srci + i * w + j) with (srci + w + (i - 1) * w + j) by lia.
    apply IH; try lia.
    unfold len. rewrite length_inserts. fold (len dst). lia.
Qed.

(** A rectangle that fits: the call returns and the grid holds the rows. *)
Lemma Blit_in_bounds_eq s x y w cs :
  cellbuf_ok (back_buffer s) -> 0 < w -> len cs <= GoInt.int_max ->
  0 <= x -> 0 <= y ->
  x + w <= width (back_buffer s) ->
  y + len cs / w <= height (back_buffer s) ->
  Blit x y w cs s =
    (Done tt,
     set_back_buffer
       (set_cells
          (blit_rows (Z.to_nat (len cs / w)) (y * width (back_buffer s) + x) 0
             w (width (back_buffer s)) cs (cells (back_buffer s)))
          (back_buffer s)) s).
Proof.
  intros (HW & HH & Hlen & Hmax & HWm & HHm) Hw Hcs Hx Hy Hxw Hyh.
  assert (HN : 0 <= len cs) by (unfold len; lia).
  pose proof (Z.div_pos (len cs) w HN Hw) as Hh0.
  pose proof (Z.mul_div_le (len cs) w Hw) as Hhw.
  unfold Blit.
  replace (w =? 0) with false by lia.
  rewrite GoIntFacts.quot_exact by lia.
  rewrite (GoIntFacts.add_exact x w) by (GoIntFacts.int_consts; lia).
  rewrite (GoIntFacts.add_exact y) by (GoIntFacts.int_consts; lia).
  replace (x + w >? width (back_buffer s)) with false by lia.
  replace (y + len cs / w >? height (back_buffer s)) with false by lia.
  replace (x <? 0) with false by lia. replace (y <? 0) with false by lia.
  cbn [orb].
  destruct (Z.to_nat (len cs / w)) as [| n] eqn:En.
  - simpl. unfold ret. rewrite set_back_buffer_id. reflexivity.
  - assert (Hh1 : 1 <= len cs / w) by lia.
    assert (Hyw : 0 <= y * width (back_buffer s)
                  /\ y * width (back_buffer s) + width (back_buffer s)
                     <= width (back_buffer s) * height (back_buffer s)) by nia.
    rewrite GoIntFacts.mul_exact by (GoIntFacts.int_consts; lia).
    rewrite GoIntFacts.add_exact by (GoIntFacts.int_consts; lia).
    rewrite Blit_loop_ok; try lia; try nia.
    reflexivity.
Qed.

(** The bounds test as api.go evaluates it: a failed test is a plain
    return. *)
Lemma Blit_rejected s x y w cs :
  w <> 0 ->
  x < 0 \/ y < 0 \/
  width (back_buffer s) < GoInt.add x w \/
  height (back_buffer s) < GoInt.add y (GoInt.quot (len cs) w) ->
  Blit x y w cs s = (Done tt, s).
Proof.
  intros Hw Hout. unfold Blit.
  replace (w =? 0) with false by lia.
  destruct (GoInt.add x w >? width (back_buffer s)) eqn:E1; [reflexivity |].
  destruct (x <? 0) eqn:E2; [reflexivity |].
  destruct (GoInt.add y (GoInt.quot (len cs) w) >? height (back_buffer s))
    eqn:E3; [reflexivity |].
  destruct (y <? 0) eqn:E4; [reflexivity |].
  lia.
Qed.

(** Inputs whose sums [x+w] or [y+h] leave the [int] range slip through
    the bounds test; the first slice expression then has no valid range. *)
Lemma Blit_wrapped_first_slice (b : cellbuf) x y w N :
  cellbuf_ok b ->
  GoInt.is_int x -> GoInt.is_int y -> GoInt.is_int w ->
  0 < w -> 0 <= N ->
  width b * (height b + N) <= GoInt.int_max ->
  0 <= x -> 0 <= y -> 1 <= N / w ->
  GoInt.add x w <= width b ->
  GoInt.add y (N / w) <= height b ->
  width b < x + w \/ height b < y + N / w ->
  let d := GoInt.add (GoInt.mul y (width b)) x in
  slice_ok d (GoInt.add d w) (len (cells b)) = false.
Proof.
  intros (HW & HH & Hlen & Hmax & HWm & HHm) Ix Iy Iw Hw HN Hsz Hx Hy Hh1
    Hcx Hcy Hgeo d.
  destruct (slice_ok d (GoInt.add d w) (len (cells b))) eqn:Hok; [| reflexivity].
  exfalso. unfold slice_ok in Hok.
  apply andb_true_iff in Hok as [Hok Hhi]. apply andb_true_iff in Hok as [Hlo Hle].
  apply Z.leb_le in Hlo, Hle, Hhi. rewrite Hlen in Hhi.
  set (W := width b) in *. set (H := height b) in *. set (h := N / w) in *.
  pose proof (Z.mul_div_le N w Hw) as Hhw. fold h in Hhw.
  assert (HhN : h <= N) by nia.
  (* the integers behind each wrapped operation *)
  pose proof (GoIntFacts.wrap_is_int (d + w)) as Idw.
  destruct (GoIntFacts.wrap_congr (d + w)) as [k5 E5].
  pose proof (GoIntFacts.wrap_is_int (x + w)) as Ixw.
  destruct (GoIntFacts.wrap_congr (x + w)) as [k3 E3].
  pose proof (GoIntFacts.wrap_is_int (y + h)) as Iyh.
  destruct (GoIntFacts.wrap_congr (y + h)) as [k4 E4].
  pose proof (GoIntFacts.wrap_is_int (GoInt.mul y W + x)) as Id.
  destruct (GoIntFacts.wrap_congr (GoInt.mul y W + x)) as [k2 E2].
  destruct (GoIntFacts.wrap_congr (y * W)) as [k1 E1].
  fold (GoInt.add d w) in Idw, E5. fold (GoInt.add x w) in Ixw, E3.
  fold (GoInt.add y h) in Iyh, E4.
  fold (GoInt.add (GoInt.mul y W) x) in Id, E2. fold d in Id, E2.
  fold (GoInt.mul y W) in E1.
  set (dw := GoInt.add d w) in *. set (xw := GoInt.add x w) in *.
  set (yh := GoInt.add y h) in *. set (m := GoInt.mul y W) in *.
  set (yW := y * W) in *. set (L := W * H) in *.
  assert (HyW0 : 0 <= yW) by (apply Z.mul_nonneg_nonneg; lia).
  assert (HL : W * (H + N) = L + W * N) by (unfold L; ring).
  assert (HWN : 0 <= W * N) by (apply Z.mul_nonneg_nonneg; lia).
  assert (HyWL : y <= H -> yW <= L).
  { intros Hle'. unfold yW, L. rewrite (Z.mul_comm W H).
    apply Z.mul_le_mono_nonneg_r; lia. }
  assert (HbW : forall c, 1 <= c <= N -> W <= c * W <= W * N).
  { intros c Hc. split.
    - rewrite <- (Z.mul_1_l W) at 1. apply Z.mul_le_mono_nonneg_r; lia.
    - rewrite (Z.mul_comm W N). apply Z.mul_le_mono_nonneg_r; lia. }
  assert (HL0 : 1 <= L -> 1 <= W).
  { intros HL1. destruct (Z_le_gt_dec W 0) as [HW0 | ?]; [| lia].
    assert (W = 0) by lia. unfold L in HL1. subst W. lia. }
  GoIntFacts.int_consts.
  (* the destination slice is exact: d + w <= L *)
  assert (Hdw : d + w <= L) by lia.
  assert (HW1 : 1 <= W) by (apply HL0; lia).
  destruct (Z_le_gt_dec (y + h) H) as [Hyfit | Hyover].
  - (* y + h fits, so x + w left the int range *)
    specialize (HyWL ltac:(lia)). lia.
  - (* y + h left the int range *)
    assert (Hb : yW = 9223372036854775808 * W - (9223372036854775808 - y) * W)
      by (unfold yW; ring).
    specialize (HbW (9223372036854775808 - y) ltac:(lia)).
    set (bW := (9223372036854775808 - y) * W) in *.
    lia.
Qed.

Lemma slice_ext {A} (l l' : list A) lo hi :
  0 <= lo ->
  (forall k : nat, Z.of_nat k < hi -> l !! k = l' !! k) ->
  slice l lo hi = slice l' lo hi.
Proof.
  intros Hlo Hagree. apply list_eq. intros j. unfold slice.
  destruct (decide (j < Z.to_nat (hi - lo))%nat) as [Hj | Hj].
  - rewrite !lookup_take_lt by exact Hj. rewrite !lookup_drop.
    apply Hagree. lia.
  - rewrite !lookup_take_ge by lia. reflexivity.
Qed.

Lemma blit_rows_ext w W (src src' : list Cell) n : forall dsti srci dst,
  0 < w -> 0 <= srci ->
  (forall k : nat, Z.of_nat k < srci + Z.of_nat n * w -> src !! k = src' !! k) ->
  blit_rows n dsti srci w W src dst = blit_rows n dsti srci w W src' dst.
Proof.
  induction n as [| n IH]; intros dsti srci dst Hw Hs Hagree; [reflexivity |].
  cbn [blit_rows].
  rewrite (slice_ext src src' srci (srci + w)); try lia.
  - apply IH; try lia. intros k Hk. apply Hagree. lia.
  - intros k Hk. apply Hagree. nia.
Qed.

End BlitFacts.

(** ** Blit: the claims *)

Section BlitClaims.

(** What holds of the all-or-nothing rule.  A [Blit] with [w > 0] whose
    rectangle (width [w], height [len(cells)/w]) does not fit inside the
    back grid never copies anything.  (i) When api.go's own test fails ([x < 0], [y < 0],
    [x+w > width] or [y+h > height], the sums being Go's), the call
    returns with the whole session unchanged.  (ii) For the rectangle
    read geometrically, with the sums representable, likewise.  (iii) For
    the rectangle read geometrically with any [int] coordinates, the
    session the call leaves is the one it found, so no partial or clipped
    copy happens, provided grid and source together stay addressable. *)
Theorem Blit_all_or_nothing (s : session) (x y w : Z) (cs : list Cell) :
  initialized s ->
  GoInt.is_int x -> GoInt.is_int y -> GoInt.is_int w ->
  len cs <= GoInt.int_max ->
  0 < w ->
  let bb := back_buffer s in
  let h := len cs / w in
  (x < 0 \/ y < 0 \/ width bb < GoInt.add x w \/ height bb < GoInt.add y h ->
     Blit x y w cs s = (Done tt, s)) /\
  (x < 0 \/ y < 0 \/ width bb < x + w \/ height bb < y + h ->
     (GoInt.is_int (x + w) -> GoInt.is_int (y + h) ->
        Blit x y w cs s = (Done tt, s)) /\
     (width bb * (height bb + len cs) <= GoInt.int_max ->
        snd (Blit x y w cs s) = s)).
Proof.
  intros (Hb & _) Ix Iy Iw Hcs Hw bb h. subst bb h.
  assert (HN : 0 <= len cs) by (unfold len; lia).
  assert (Eh : GoInt.quot (len cs) w = len cs / w)
    by (apply GoIntFacts.quot_exact; lia).
  assert (Hh0 : 0 <= len cs / w) by (apply Z.div_pos; lia).
  set (h := len cs / w) in *.
  split; [| intros Hgeo; split].
  - intros Hout. apply Blit_rejected; [lia |]. rewrite Eh. exact Hout.
  - intros Ixw Iyh. apply Blit_rejected; [lia |]. rewrite Eh.
    rewrite !GoIntFacts.add_exact by assumption. exact Hgeo.
  - intros Hsz.
    destruct (Z_lt_dec x 0) as [Hx | Hx];
      [rewrite Blit_rejected by (rewrite ?Eh; lia); reflexivity |].
    destruct (Z_lt_dec y 0) as [Hy | Hy];
      [rewrite Blit_rejected by (rewrite ?Eh; lia); reflexivity |].
    destruct (Z_lt_dec (width (back_buffer s)) (GoInt.add x w)) as [Hcx | Hcx];
      [rewrite Blit_rejected by (rewrite ?Eh; lia); reflexivity |].
    destruct (Z_lt_dec (height (back_buffer s)) (GoInt.add y h)) as [Hcy | Hcy];
      [rewrite Blit_rejected by (rewrite ?Eh; lia); reflexivity |].
    unfold Blit. replace (w =? 0) with false by lia. rewrite Eh.
    replace (GoInt.add x w >? width (back_buffer s)) with false by lia.
    replace (GoInt.add y h >? height (back_buffer s)) with false by lia.
    replace (x <? 0) with false by lia. replace (y <? 0) with false by lia.
    cbn [orb].
    destruct (Z.to_nat h) as [| n] eqn:En; [reflexivity |].
    cbn [Blit_loop]. unfold bind, Blit_copy. subst h.
    rewrite (Blit_wrapped_first_slice (back_buffer s) x y w (len cs));
      try assumption; try lia.
    reflexivity.
Qed.

Lemma Blit_all_or_nothing_witness :
  Blit 3 1 2 (map example_cell [1; 2; 3; 4; 5]) (fresh_session 4 3)
    = (Done tt, fresh_session 4 3) /\
  snd (Blit GoInt.int_max 0 1 [example_cell 1] (fresh_session 1 1))
    = fresh_session 1 1.
Proof.
  split.
  - refine (proj1 (proj2 (Blit_all_or_nothing (fresh_session 4 3) 3 1 2
                            (map example_cell [1; 2; 3; 4; 5])
                            _ _ _ _ _ _) _) _ _).
    + vm_compute; repeat split; discriminate || reflexivity.
    + vm_compute; split; discriminate.
    + vm_compute; split; discriminate.
    + vm_compute; split; discriminate.
    + vm_compute; discriminate.
    + lia.
    + vm_compute. right. right. left. reflexivity.
    + vm_compute; split; discriminate.
    + vm_compute; split; discriminate.
  - refine (proj2 (proj2 (Blit_all_or_nothing (fresh_session 1 1)
                            GoInt.int_max 0 1 [example_cell 1]
                            _ _ _ _ _ _) _) _).
    + vm_compute; repeat split; discriminate || reflexivity.
    + vm_compute; split; discriminate.
    + vm_compute; split; discriminate.
    + vm_compute; split; discriminate.
    + vm_compute; discriminate.
    + lia.
    + vm_compute. right. right. left. reflexivity.
    + vm_compute; discriminate.
Defined.

(** C1. A rectangle that does not fit is not always discarded.  On an
    initialised session with an 80 by 24 grid, with [x] the largest
    [int], [w = 1 > 0] and one cell, the rectangle crosses the right edge
    ([x + w > width], its height being [len(cells)/w = 1]); but the sum
    [x+w] of the bounds test wraps to the smallest [int], the test lets
    the call through, and [Blit] does not return with the operation
    discarded: it panics at the first slice expression.  No cell of the
    back grid has changed. *)
Theorem Blit_not_discarded_when_sum_wraps :
  let s := fresh_session 80 24 in
  let x := GoInt.int_max in
  let cs := [example_cell 1] in
  initialized s /\
  0 < 1 /\ GoInt.is_int x /\ len cs / 1 = 1 /\
  width (back_buffer s) < x + 1 /\
  (GoInt.add x 1 >? width (back_buffer s)) = false /\
  Blit x 0 1 cs s <> (Done tt, s) /\
  fst (Blit x 0 1 cs s) = Panicked SliceBoundsOutOfRange /\
  cells (back_buffer (snd (Blit x 0 1 cs s))) = cells (back_buffer s).
Proof.
  intros s x cs.
  split; [apply fresh_session_initialized; vm_compute; repeat split;
          discriminate |].
  split; [lia |].
  split; [vm_compute; split; discriminate |].
  split; [reflexivity |].
  split; [vm_compute; reflexivity |].
  split; [vm_compute; reflexivity |].
  assert (E : Blit x 0 1 cs s = (Panicked SliceBoundsOutOfRange, s))
    by (vm_compute; reflexivity).
  rewrite E. split; [discriminate | split; reflexivity].
Qed.

(** With [w = 0] the height derivation divides by zero. *)
Lemma Blit_zero_width s x y cs :
  Blit x y 0 cs s = (Panicked DivideByZero, s).
Proof. reflexivity. Qed.

(** With [w > 0] and both sums representable, [Blit] returns. *)
Lemma Blit_returns_without_overflow s x y w cs :
  initialized s -> 0 < w -> len cs <= GoInt.int_max ->
  GoInt.is_int (x + w) -> GoInt.is_int (y + len cs / w) ->
  exists s', Blit x y w cs s = (Done tt, s').
Proof.
  intros (Hb & _) Hw Hcs Ixw Iyh.
  assert (HN : 0 <= len cs) by (unfold len; lia).
  destruct (Z_lt_dec x 0) as [Hx | Hx];
    [eexists; apply Blit_rejected; lia |].
  destruct (Z_lt_dec y 0) as [Hy | Hy];
    [eexists; apply Blit_rejected; lia |].
  destruct (Z_lt_dec (width (back_buffer s)) (x + w)) as [Hcx | Hcx].
  { eexists. apply Blit_rejected; [lia |].
    rewrite GoIntFacts.add_exact by assumption. lia. }
  destruct (Z_lt_dec (height (back_buffer s)) (y + len cs / w)) as [Hcy | Hcy].
  { eexists. apply Blit_rejected; [lia |].
    rewrite GoIntFacts.quot_exact by lia.
    rewrite (GoIntFacts.add_exact y) by assumption. lia. }
  eexists. apply Blit_in_bounds_eq; try assumption; lia.
Qed.

(** C9. The precondition [w > 0] does not keep [Blit] from panicking:
    with [x] the largest [int], [w = 1] and one cell, on an 80 by 24
    grid, the sum [x+w] wraps to a negative number, the bounds test lets
    the call through, and the first slice expression [dst[dsti:dsti+w]]
    panics. *)
Theorem Blit_panics_when_sum_wraps :
  0 < 1 /\
  GoInt.add GoInt.int_max 1 = GoInt.int_min /\
  Blit GoInt.int_max 0 1 [example_cell 1] (fresh_session 80 24)
    = (Panicked SliceBoundsOutOfRange, fresh_session 80 24).
Proof. split; [lia | split; vm_compute; reflexivity]. Qed.

(** C10. An in-bounds [Blit] with [w > 0] returns, and with
    [h = floor(len(cells)/w)]: cell [j] of source row [i < h] lands at
    index [(y+i)*width + x + j] of the back grid, every index outside
    these [h] rows of [w] cells keeps its cell, and the cells after the
    first [h*w] have no influence at all: replacing them by any others
    gives the same result. *)
Theorem Blit_copies_whole_rows_only (s : session) (x y w : Z) (cs : list Cell) :
  initialized s -> 0 < w -> len cs <= GoInt.int_max ->
  0 <= x -> 0 <= y ->
  x + w <= width (back_buffer s) ->
  y + len cs / w <= height (back_buffer s) ->
  let bb := back_buffer s in
  let h := len cs / w in
  exists cells',
    Blit x y w cs s = (Done tt, set_back_buffer (set_cells cells' bb) s) /\
    length cells' = length (cells bb) /\
    (forall i j, 0 <= i < h -> 0 <= j < w ->
       cells' !! Z.to_nat ((y + i) * width bb + x + j)
         = cs !! Z.to_nat (i * w + j) /\
       is_Some (cs !! Z.to_nat (i * w + j))) /\
    (forall k : nat,
       (forall i j, 0 <= i < h -> 0 <= j < w ->
          k <> Z.to_nat ((y + i) * width bb + x + j)) ->
       cells' !! k = cells bb !! k) /\
    (forall cs' : list Cell,
       length cs' = length cs ->
       take (Z.to_nat (h * w)) cs' = take (Z.to_nat (h * w)) cs ->
       Blit x y w cs' s = Blit x y w cs s).
Proof.
  intros Hinit Hw Hcs Hx Hy Hxw Hyh bb h.
  pose proof Hinit as (Hb & _).
  pose proof Hb as (HW & HH & Hlen & Hmax & HWm & HHm).
  assert (HN : 0 <= len cs) by (unfold len; lia).
  assert (Hh0 : 0 <= h) by (apply Z.div_pos; lia).
  pose proof (Z.mul_div_le (len cs) w Hw) as Hhw. fold h in Hhw.
  fold bb in HW, HH, Hlen, Hmax, Hxw, Hyh.
  eexists. split; [apply Blit_in_bounds_eq; assumption |].
  fold bb h.
  split; [apply blit_rows_length |].
  split; [| split].
  - intros i j Hi Hj. split.
    + replace ((y + i) * width bb + x + j)
        with (y * width bb + x + i * width bb + j) by lia.
      replace (i * w + j) with (0 + i * w + j) by lia.
      apply blit_rows_lookup_in; try lia.
      * rewrite Hlen, Z2Nat.id by lia. nia.
    + apply lookup_lt_is_Some. unfold len in *. nia.
  - intros k Hk. apply blit_rows_lookup_out; try lia; try nia.
    intros i Hi Hin.
    apply (Hk i (Z.of_nat k - (y * width bb + x) - i * width bb)); lia.
  - intros cs' Hlen' Htake.
    assert (El : len cs' = len cs) by (unfold len; lia).
    rewrite !Blit_in_bounds_eq; try assumption; rewrite ?El; try assumption.
    fold bb h. do 3 f_equal.
    apply blit_rows_ext; try lia.
    intros k Hk. rewrite Z2Nat.id in Hk by lia.
    rewrite <- (lookup_take_lt cs' (Z.to_nat (h * w))) by lia.
    rewrite <- (lookup_take_lt cs (Z.to_nat (h * w))) by lia.
    rewrite Htake. reflexivity.
Qed.

Lemma Blit_copies_whole_rows_only_witness :
  exists cells',
    Blit 1 1 2 (map example_cell [1; 2; 3; 4; 5]) (fresh_session 4 3)
      = (Done tt, set_back_buffer
                    (set_cells cells' (back_buffer (fresh_session 4 3)))
                    (fresh_session 4 3)) /\
    map Ch cells' = [32; 32; 32; 32; 32; 1; 2; 32; 32; 3; 4; 32].
Proof.
  destruct (Blit_copies_whole_rows_only (fresh_session 4 3) 1 1 2
              (map example_cell [1; 2; 3; 4; 5])) as (cells' & HB & _).
  - vm_compute; repeat split; discriminate || reflexivity.
  - lia.
  - vm_compute; discriminate.
  - lia.
  - lia.
  - vm_compute; discriminate.
  - vm_compute; discriminate.
  - exists cells'. split; [exact HB |].
    vm_compute in HB. injection HB as HB. rewrite <- HB. reflexivity.
Defined.

End BlitClaims.

(** ** The cursor *)

Section CursorFacts.

Variable is_cursor_hidden : Z -> Z -> bool.

Local Abbreviation SetCursor' := (SetCursor is_cursor_hidden).

Local Abbreviation HideCursor' := (HideCursor is_cursor_hidden).

(** C5. [SetCursor x y] appends to the pending output: one show-cursor
    sequence exactly when the stored position is hidden and [(x,y)] is
    not, one hide-cursor sequence exactly when the stored position is
    visible and [(x,y)] is hidden, neither when both are hidden or both
    visible; beside them only the cursor move.  [HideCursor] is
    [SetCursor] at the hidden pair. *)
Theorem SetCursor_show_hide_edges (s : session) (x y : Z) :
  let old := is_cursor_hidden (cursor_x s) (cursor_y s) in
  let new := is_cursor_hidden x y in
  let s' := snd (SetCursor' x y s) in
  let out := appended s s' in
  fst (SetCursor' x y s) = Done tt /\
  outbuf (em s') = outbuf (em s) ++ out /\
  out = (if old && negb new then [WriteString t_show_cursor] else []) ++
        (if negb old && new then [WriteString t_hide_cursor] else []) ++
        (if negb new
         then [Fprintf t_move_cursor (GoInt.add y 1) (GoInt.add y 1)]
         else []) /\
  (In (WriteString t_show_cursor) out <-> old = true /\ new = false) /\
  (In (WriteString t_hide_cursor) out <-> old = false /\ new = true) /\
  (old = new ->
   ~ In (WriteString t_show_cursor) out /\
   ~ In (WriteString t_hide_cursor) out) /\
  cursor_x s' = x /\ cursor_y s' = y /\
  HideCursor' s = SetCursor' cursor_hidden cursor_hidden s.
Proof.
  intros old new s' out. subst s' out old new.
  unfold appended, HideCursor, SetCursor. cbn [snd fst].
  cbn [cursor_x cursor_y set_cursor set_em em].
  destruct (is_cursor_hidden (cursor_x s) (cursor_y s)) eqn:Eo;
    destruct (is_cursor_hidden x y) eqn:En;
    cbn [andb negb emit set_outbuf outbuf app];
    rewrite <- ?app_assoc, ?drop_app_length, ?drop_all;
    cbn [app In];
    (repeat split; intros; try reflexivity;
     try (rewrite app_nil_r; reflexivity);
     simpl in *; intuition (discriminate || congruence)).
Qed.

(** The move that [SetCursor] emits for a visible target carries the row
    twice; the final move of [Present] carries row and column. *)
Lemma SetCursor_move_arguments s x y :
  is_cursor_hidden x y = false ->
  last (outbuf (em (snd (SetCursor' x y s))))
    = Some (Fprintf t_move_cursor (GoInt.add y 1) (GoInt.add y 1)).
Proof.
  intros Hvis. unfold SetCursor. cbn [snd]. simpl. rewrite Hvis. simpl.
  apply last_snoc.
Qed.

Lemma Present_cursor_move_arguments s :
  is_cursor_hidden (cursor_x s) (cursor_y s) = false ->
  last (outbuf (em (Present_cursor is_cursor_hidden s)))
    = Some (Fprintf t_move_cursor (GoInt.add (cursor_y s) 1)
                                  (GoInt.add (cursor_x s) 1)).
Proof.
  intros Hvis. unfold Present_cursor. rewrite Hvis. simpl. apply last_snoc.
Qed.

End CursorFacts.

(** ** Input mode, Present and Clear *)

Section PresentFacts.

Variable is_cursor_hidden : Z -> Z -> bool.

Variable coord_invalid : Z.

Variable send_attr : Attribute -> Attribute -> emitter -> emitter.

Variable send_char : Z -> Z -> rune -> emitter -> emitter.

Local Abbreviation Present_cell' := (Present_cell send_attr send_char).

Local Abbreviation Present_cols' := (Present_cols send_attr send_char).

Local Abbreviation Present_rows' := (Present_rows send_attr send_char).

Local Abbreviation Present_diff' := (Present_diff send_attr send_char).

Local Abbreviation Present' :=
  (Present is_cursor_hidden coord_invalid send_attr send_char).

Lemma presented_state_id s :
  presented_state (cells (front_buffer s)) (em s) s = s.
Proof. destruct s as [? [? ? ?] ? ? ? ? ? ? ? ? ? ? ?]. reflexivity. Qed.

Lemma presented_state_twice cs e cs' e' s :
  presented_state cs' e' (presented_state cs e s) = presented_state cs' e' s.
Proof. reflexivity. Qed.

Lemma presented_refl lo back front : presented lo lo back front front.
Proof. split; [reflexivity |]. intros i. split; [lia | reflexivity]. Qed.

Lemma presented_trans lo mid hi back f0 f1 f2 :
  lo <= mid <= hi ->
  presented lo mid back f0 f1 -> presented mid hi back f1 f2 ->
  presented lo hi back f0 f2.
Proof.
  intros Hm [Hl1 H1] [Hl2 H2]. split; [congruence |].
  intros i. destruct (H1 i) as [H1a H1b]. destruct (H2 i) as [H2a H2b].
  split.
  - intros Hi. destruct (Z_lt_dec (Z.of_nat i) mid).
    + rewrite H2b by lia. apply H1a. lia.
    + apply H2a. lia.
  - intros Hi. rewrite H2b by lia. apply H1b. lia.
Qed.

Lemma presented_all back front front' :
  length back = length front ->
  presented 0 (len back) back front front' -> front' = back.
Proof.
  intros Hlen [Hl Hp]. apply list_eq. intros i.
  destruct (Z_lt_dec (Z.of_nat i) (len back)) as [Hi | Hi].
  - apply Hp. lia.
  - unfold len in Hi. rewrite !lookup_ge_None_2 by lia. reflexivity.
Qed.

Lemma Present_cell_ok x y lo s :
  0 <= lo -> 0 <= x ->
  length (cells (front_buffer s)) = length (cells (back_buffer s)) ->
  lo + x < len (cells (back_buffer s)) ->
  len (cells (back_buffer s)) <= GoInt.int_max ->
  exists e cs,
    Present_cell' x y lo s = (Done tt, presented_state cs e s) /\
    presented (lo + x) (lo + x + 1) (cells (back_buffer s))
      (cells (front_buffer s)) cs /\
    (cells (front_buffer s) = cells (back_buffer s) ->
     e = em s /\ cs = cells (front_buffer s)).
Proof.
  intros Hlo Hx Hlen Hin Hmax. unfold Present_cell.
  rewrite GoIntFacts.add_exact by (GoIntFacts.int_consts; lia).
  assert (Hlenf : len (cells (front_buffer s)) = len (cells (back_buffer s)))
    by (unfold len; lia).
  rewrite Hlenf.
  replace (0 <=? lo + x) with true by lia.
  replace (lo + x <? len (cells (back_buffer s))) with true by lia.
  cbn [andb negb].
  destruct (lookup_lt_is_Some_2 (cells (back_buffer s)) (Z.to_nat (lo + x)))
    as [b Hb]; [unfold len in Hin; lia |].
  destruct (lookup_lt_is_Some_2 (cells (front_buffer s)) (Z.to_nat (lo + x)))
    as [f Hf]; [unfold len in Hin; lia |].
  rewrite Hb, Hf.
  destruct (Cell_eqb b f) eqn:Heq.
  - apply Cell_eqb_eq in Heq. subst f.
    exists (em s), (cells (front_buffer s)).
    rewrite presented_state_id. split; [reflexivity |]. split; [| auto].
    split; [reflexivity |]. intros i. split; [| reflexivity].
    intros Hi. replace i with (Z.to_nat (lo + x)) by lia. congruence.
  - eexists _, _. split; [reflexivity |]. split.
    + split; [apply length_insert |]. intros i. split.
      * intros Hi. replace i with (Z.to_nat (lo + x)) by lia.
        rewrite list_lookup_insert_eq by (unfold len in Hin; lia).
        congruence.
      * intros Hi. apply list_lookup_insert_ne. lia.
    + intros Hsame. rewrite Hsame, Hb in Hf. injection Hf as ->.
      rewrite Cell_eqb_refl in Heq. discriminate.
Qed.

Lemma Present_cols_ok y lo n : forall x s,
  0 <= lo -> 0 <= x ->
  length (cells (front_buffer s)) = length (cells (back_buffer s)) ->
  lo + x + Z.of_nat n <= len (cells (back_buffer s)) ->
  len (cells (back_buffer s)) <= GoInt.int_max ->
  exists e cs,
    Present_cols' n x y lo s = (Done tt, presented_state cs e s) /\
    presented (lo + x) (lo + x + Z.of_nat n) (cells (back_buffer s))
      (cells (front_buffer s)) cs /\
    (cells (front_buffer s) = cells (back_buffer s) ->
     e = em s /\ cs = cells (front_buffer s)).
Proof.
  induction n as [| n IH]; intros x s Hlo Hx Hlen Hin Hmax.
  - exists (em s), (cells (front_buffer s)). rewrite presented_state_id.
    split; [reflexivity |]. split; [| auto].
    rewrite Z.add_0_r. apply presented_refl.
  - cbn [Present_cols]. unfold bind.
    destruct (Present_cell_ok x y lo s) as (e1 & cs1 & E1 & P1 & S1);
      try assumption; try lia.
    rewrite E1.
    rewrite GoIntFacts.add_exact by (GoIntFacts.int_consts; lia).
    destruct (IH (x + 1) (presented_state cs1 e1 s)) as (e2 & cs2 & E2 & P2 & S2);
      try assumption; try lia.
    + simpl. rewrite (proj1 P1). exact Hlen.
    + simpl. lia.
    + rewrite E2, presented_state_twice. exists e2, cs2.
      split; [reflexivity |]. simpl in P2, S2. split.
      * apply (presented_trans _ (lo + x + 1) _ _ _ cs1); [lia | exact P1 |].
        replace (lo + x + 1) with (lo + (x + 1)) by lia.
        replace (lo + x + Z.of_nat (S n)) with (lo + (x + 1) + Z.of_nat n) by lia.
        exact P2.
      * intros Hsame. destruct (S1 Hsame) as [-> ->].
        destruct (S2 Hsame) as [-> ->]. auto.
Qed.

Lemma Present_rows_ok n : forall y s,
  0 <= y -> 0 <= width (front_buffer s) ->
  y + Z.of_nat n <= GoInt.int_max ->
  length (cells (front_buffer s)) = length (cells (back_buffer s)) ->
  (y + Z.of_nat n) * width (front_buffer s) <= len (cells (back_buffer s)) ->
  len (cells (back_buffer s)) <= GoInt.int_max ->
  exists e cs,
    Present_rows' n y s = (Done tt, presented_state cs e s) /\
    presented (y * width (front_buffer s))
      ((y + Z.of_nat n) * width (front_buffer s))
      (cells (back_buffer s)) (cells (front_buffer s)) cs /\
    (cells (front_buffer s) = cells (back_buffer s) ->
     e = em s /\ cs = cells (front_buffer s)).
Proof.
  induction n as [| n IH]; intros y s Hy HW Hyn Hlen Hin Hmax.
  - exists (em s), (cells (front_buffer s)). rewrite presented_state_id.
    split; [reflexivity |]. split; [| auto].
    rewrite Z.add_0_r. apply presented_refl.
  - cbn [Present_rows]. unfold bind.
    set (W := width (front_buffer s)) in *.
    assert (HyW : 0 <= y * W /\ y * W + W <= (y + Z.of_nat (S n)) * W) by nia.
    rewrite GoIntFacts.mul_exact by (GoIntFacts.int_consts; lia).
    destruct (Present_cols_ok y (y * W) (Z.to_nat W) 0 s)
      as (e1 & cs1 & E1 & P1 & S1); try assumption; try lia.
    rewrite E1.
    rewrite GoIntFacts.add_exact by (GoIntFacts.int_consts; lia).
    destruct (IH (y + 1) (presented_state cs1 e1 s))
      as (e2 & cs2 & E2 & P2 & S2); try assumption; try lia.
    + simpl. rewrite (proj1 P1). exact Hlen.
    + simpl. fold W. lia.
    + rewrite E2, presented_state_twice. exists e2, cs2.
      split; [reflexivity |]. simpl in P2, S2. fold W in P2. split.
      * apply (presented_trans _ ((y + 1) * W) _ _ _ cs1); [lia | |].
        -- replace ((y + 1) * W) with (y * W + 0 + Z.of_nat (Z.to_nat W)) by lia.
           replace (y * W) with (y * W + 0) at 1 by lia. exact P1.
        -- replace (y + Z.of_nat (S n)) with (y + 1 + Z.of_nat n) by lia.
           exact P2.
      * intros Hsame. destruct (S1 Hsame) as [-> ->].
        destruct (S2 Hsame) as [-> ->]. auto.
Qed.

(** The scan of an initialised session returns and leaves the front
    cells equal to the back cells; if they already were, it changes
    nothing and calls no emitter. *)
Lemma Present_diff_ok s :
  initialized s ->
  exists e,
    Present_diff' s = (Done tt, presented_state (cells (back_buffer s)) e s) /\
    (cells (front_buffer s) = cells (back_buffer s) -> e = em s).
Proof.
  intros ((HW & HH & Hlen & Hmax & HWm & HHm) & (_ & _ & Hlenf & _) & EW & EH).
  unfold Present_diff.
  destruct (Present_rows_ok (Z.to_nat (height (front_buffer s))) 0 s)
    as (e & cs & E & P & S); try lia.
  - rewrite EW, EH in Hlenf. unfold len in *. lia.
  - exists e. rewrite E. split.
    + f_equal. f_equal.
      apply (presented_all _ (cells (front_buffer s))).
      * rewrite EW, EH in Hlenf. unfold len in *. lia.
      * replace (len (cells (back_buffer s)))
          with ((0 + Z.of_nat (Z.to_nat (height (front_buffer s))))
                * width (front_buffer s)) by (rewrite Hlen, EW, EH; lia).
        exact P.
    + intros Hsame. apply S. exact Hsame.
Qed.

Lemma update_size_initialized s :
  geometry_ok (tty_size s) -> initialized (update_size s).
Proof.
  unfold update_size. destruct (tty_size s) as [w h]. simpl.
  intros Hg. unfold initialized. simpl.
  pose proof (cellbuf_clear_ok (foreground s) (background s) _
                (cellbuf_init_ok w h Hg)) as Hok.
  unfold cellbuf_resize. auto.
Qed.

Lemma consume_resize_initialized s :
  initialized s -> (sigwinch_draw s = true -> geometry_ok (tty_size s)) ->
  initialized (consume_resize s).
Proof.
  intros Hi Hg. unfold consume_resize.
  destruct (sigwinch_draw s) eqn:E; [| exact Hi].
  apply update_size_initialized. simpl. auto.
Qed.

Lemma consume_resize_slot s : sigwinch_draw (consume_resize s) = false.
Proof.
  unfold consume_resize. destruct (sigwinch_draw s) eqn:E; [| exact E].
  unfold update_size. simpl. destruct (tty_size s). reflexivity.
Qed.

Lemma consume_resize_cursor s :
  cursor_x (consume_resize s) = cursor_x s /\
  cursor_y (consume_resize s) = cursor_y s /\
  em (consume_resize s) = em s /\
  tty_written (consume_resize s) = tty_written s.
Proof.
  unfold consume_resize. destruct (sigwinch_draw s); [| auto].
  unfold update_size. simpl. destruct (tty_size s). simpl. auto.
Qed.

(** What one [Present] leaves behind. *)
Lemma Present_returns s :
  initialized s -> (sigwinch_draw s = true -> geometry_ok (tty_size s)) ->
  exists s',
    Present' s = (Done tt, s') /\
    cells (front_buffer s') = cells (back_buffer s') /\
    initialized s' /\
    sigwinch_draw s' = false /\
    outbuf (em s') = [] /\
    cursor_x s' = cursor_x s /\ cursor_y s' = cursor_y s /\
    back_buffer s' = back_buffer (consume_resize s).
Proof.
  intros Hi Hg. unfold Present.
  set (s1 := set_em (set_last coord_invalid coord_invalid (em s)) s).
  assert (Hi2 : initialized (consume_resize s1))
    by (apply consume_resize_initialized; [exact Hi | exact Hg]).
  destruct (Present_diff_ok (consume_resize s1) Hi2) as (e & E & _).
  rewrite E. eexists. split; [reflexivity |].
  pose proof (consume_resize_slot s1) as Hslot.
  destruct (consume_resize_cursor s1) as (Hcx & Hcy & _ & _).
  assert (Hback : back_buffer (consume_resize s1) = back_buffer (consume_resize s)).
  { unfold consume_resize, s1. simpl. destruct (sigwinch_draw s); [| reflexivity].
    unfold update_size. simpl. destruct (tty_size s). reflexivity. }
  set (s2 := consume_resize s1) in *.
  destruct Hi2 as (Hb & Hf & EW & EH).
  unfold flush, Present_cursor, presented_state.
  destruct (is_cursor_hidden _ _); simpl; repeat split; simpl; auto;
    try (apply Hb); try (rewrite ?EW, ?EH; apply Hb); try (apply Hf).
Qed.

(** A [Present] on grids already in step emits no cell output. *)
Lemma Present_in_sync s :
  initialized s -> sigwinch_draw s = false ->
  cells (front_buffer s) = cells (back_buffer s) ->
  Present' s =
    (Done tt,
     flush (Present_cursor is_cursor_hidden
              (set_em (set_last coord_invalid coord_invalid (em s)) s))).
Proof.
  intros Hi Hslot Hsame. unfold Present.
  set (s1 := set_em (set_last coord_invalid coord_invalid (em s)) s).
  assert (Ec : consume_resize s1 = s1)
    by (unfold consume_resize, s1; simpl; rewrite Hslot; reflexivity).
  rewrite Ec.
  destruct (Present_diff_ok s1 Hi) as (e & E & Esame).
  rewrite E. rewrite (Esame Hsame).
  replace (cells (back_buffer s1)) with (cells (front_buffer s1))
    by exact Hsame.
  rewrite presented_state_id. reflexivity.
Qed.

(** C4.  After any [Present] on an initialised session the
    front cells equal the back cells; a second [Present] right after it
    leaves both grids as they are and writes no cell output: its single
    write is empty when the cursor is hidden and is exactly the final
    cursor move when the cursor is visible. *)
Theorem Present_twice_no_cell_output (s : session) :
  initialized s ->
  (sigwinch_draw s = true -> geometry_ok (tty_size s)) ->
  exists s1 s2,
    Present' s = (Done tt, s1) /\
    cells (front_buffer s1) = cells (back_buffer s1) /\
    Present' s1 = (Done tt, s2) /\
    back_buffer s2 = back_buffer s1 /\
    front_buffer s2 = front_buffer s1 /\
    tty_written s2 =
      tty_written s1 ++
        [if is_cursor_hidden (cursor_x s1) (cursor_y s1) then []
         else [Fprintf t_move_cursor (GoInt.add (cursor_y s1) 1)
                                     (GoInt.add (cursor_x s1) 1)]].
Proof.
  intros Hi Hg.
  destruct (Present_returns s Hi Hg)
    as (s1 & E1 & Hsame & Hi1 & Hslot & Hbuf & _).
  exists s1. eexists. split; [exact E1 |]. split; [exact Hsame |].
  split; [apply Present_in_sync; assumption |].
  unfold flush, Present_cursor. cbn [cursor_x cursor_y set_em].
  destruct (is_cursor_hidden (cursor_x s1) (cursor_y s1)); simpl;
    rewrite Hbuf; auto.
Qed.

(** C6. A pending draw-side resize notification is consumed by [Present]
    and by [Clear] before anything else is looked at: either call is the
    same call made on the session with the slot emptied and both grids
    already resized to the geometry the terminal reports.  So the scan of
    [Present] runs over the new geometry, whatever the grids were, and
    [Clear] clears a back grid of the new geometry. *)
Theorem resize_consumed_before_diff (s : session) :
  sigwinch_draw s = true -> geometry_ok (tty_size s) ->
  let r := update_size (set_sigwinch_draw false s) in
  sigwinch_draw r = false /\
  (width (back_buffer r), height (back_buffer r)) = tty_size s /\
  (width (front_buffer r), height (front_buffer r)) = tty_size s /\
  Present' s = Present' r /\
  Clear s = Clear r /\
  (exists s',
     Present' s = (Done tt, s') /\
     sigwinch_draw s' = false /\
     (width (back_buffer s'), height (back_buffer s')) = tty_size s /\
     (width (front_buffer s'), height (front_buffer s')) = tty_size s /\
     len (cells (front_buffer s')) = fst (tty_size s) * snd (tty_size s) /\
     cells (front_buffer s') = cells (back_buffer s')) /\
  (exists s',
     Clear s = (Done tt, s') /\
     sigwinch_draw s' = false /\
     (width (back_buffer s'), height (back_buffer s')) = tty_size s /\
     cells (back_buffer s') =
       replicate (Z.to_nat (fst (tty_size s) * snd (tty_size s)))
                 (mkCell 32 (foreground s) (background s))).
Proof.
  intros Hp Hg r.
  assert (Hr : initialized r) by (apply update_size_initialized; exact Hg).
  assert (Hslot : sigwinch_draw r = false).
  { unfold r, update_size. simpl. destruct (tty_size s). reflexivity. }
  assert (Hdims : (width (back_buffer r), height (back_buffer r)) = tty_size s
                  /\ (width (front_buffer r), height (front_buffer r)) = tty_size s).
  { unfold r, update_size. simpl. destruct (tty_size s). simpl. auto. }
  assert (EP : Present' s = Present' r).
  { unfold Present, consume_resize. simpl. rewrite Hp, Hslot.
    unfold r, update_size. simpl. destruct (tty_size s). reflexivity. }
  assert (EC : Clear s = Clear r).
  { unfold Clear, consume_resize. rewrite Hp, Hslot. reflexivity. }
  split; [exact Hslot |]. split; [apply Hdims |]. split; [apply Hdims |].
  split; [exact EP |]. split; [exact EC |]. split.
  - destruct (Present_returns r Hr) as (s' & E & Hsame & Hi' & Hs' & _ & _ & _ & Hb).
    { rewrite Hslot. discriminate. }
    exists s'. rewrite EP. split; [exact E |]. split; [exact Hs' |].
    assert (Hcr : consume_resize r = r)
      by (unfold consume_resize; rewrite Hslot; reflexivity).
    rewrite Hcr in Hb.
    destruct Hi' as (Hbok & Hfok & EW & EH).
    assert (Hdb : (width (back_buffer s'), height (back_buffer s')) = tty_size s)
      by (rewrite Hb; apply Hdims).
    assert (Hdf : (width (front_buffer s'), height (front_buffer s')) = tty_size s)
      by (rewrite EW, EH; exact Hdb).
    split; [exact Hdb |]. split; [exact Hdf |]. split; [| exact Hsame].
    destruct Hfok as (_ & _ & Hlen & _). rewrite Hlen, <- Hdf. reflexivity.
  - rewrite EC. unfold Clear.
    assert (Hcr : consume_resize r = r)
      by (unfold consume_resize; rewrite Hslot; reflexivity).
    rewrite Hcr. eexists. split; [reflexivity |]. simpl.
    split; [exact Hslot |]. split; [apply Hdims |].
    unfold r, update_size. cbn [tty_size set_sigwinch_draw].
    destruct (tty_size s) as [w h]. simpl.
    rewrite !length_replicate.
    destruct Hg as (Hw & Hh & Hm). simpl in Hw, Hh, Hm.
    rewrite GoIntFacts.mul_exact; [reflexivity |].
    assert (0 <= w * h) by (apply Z.mul_nonneg_nonneg; lia).
    GoIntFacts.int_consts. lia.
Qed.

(** C8. [SetInputMode(InputCurrent)] returns the stored mode and leaves
    the session as it is; [SetInputMode(InputEsc)] and
    [SetInputMode(InputAlt)] store the mode and return it, and change no
    other variable of the session. *)
Theorem SetInputMode_query_and_set (s : session) :
  SetInputMode InputCurrent s = (Done (input_mode s), s) /\
  SetInputMode InputEsc s = (Done InputEsc, set_input_mode InputEsc s) /\
  SetInputMode InputAlt s = (Done InputAlt, set_input_mode InputAlt s) /\
  forall m : InputMode,
    let s' := set_input_mode m s in
    input_mode s' = m /\
    back_buffer s' = back_buffer s /\ front_buffer s' = front_buffer s /\
    termw s' = termw s /\ termh s' = termh s /\
    cursor_x s' = cursor_x s /\ cursor_y s' = cursor_y s /\
    foreground s' = foreground s /\ background s' = background s /\
    em s' = em s /\ sigwinch_draw s' = sigwinch_draw s /\
    tty_size s' = tty_size s /\ tty_written s' = tty_written s.
Proof.
  repeat split.
Qed.

End PresentFacts.

(** ** Instances at concrete sessions *)

Section ClosedInstances.

(** C3. [SetCursor(5, 2)] on a session with the cursor hidden appends a
    show-cursor sequence and a move whose two parameters are both row 3:
    the column parameter is [y+1], not [x+1].  The final move of
    [Present] for the same position carries row 3 and column 6. *)
Theorem SetCursor_passes_row_as_column :
  let s := fresh_session 8 4 in
  let s' := snd (SetCursor_spec 5 2 s) in
  is_cursor_hidden_spec 5 2 = false /\
  appended s s' = [WriteString t_show_cursor; Fprintf t_move_cursor 3 3] /\
  Fprintf t_move_cursor 3 3 <> Fprintf t_move_cursor (2 + 1) (5 + 1) /\
  (cursor_x s', cursor_y s') = (5, 2) /\
  last (outbuf (em (Present_cursor is_cursor_hidden_spec s')))
    = Some (Fprintf t_move_cursor 3 6).
Proof.
  vm_compute. repeat split; discriminate.
Qed.

(** C4, visible cursor: with the cursor at (0,0) the second of two
    consecutive [Present] calls, nothing having changed in between,
    writes a cursor move, not an empty output. *)
Lemma Present_second_output_not_empty :
  let s0 := snd (SetCursor_spec 0 0 (fresh_session 2 2)) in
  let s1 := snd (Present_spec s0) in
  let s2 := snd (Present_spec s1) in
  fst (Present_spec s0) = Done tt /\
  fst (Present_spec s1) = Done tt /\
  back_buffer s2 = back_buffer s1 /\
  (cursor_x s2, cursor_y s2) = (cursor_x s1, cursor_y s1) /\
  tty_written s2 = tty_written s1 ++ [[Fprintf t_move_cursor 1 1]] /\
  ~ (tty_written s2 = tty_written s1 ++ [[]]).
Proof.
  vm_compute. repeat split; discriminate.
Qed.

Lemma Present_twice_no_cell_output_witness :
  exists s1 s2,
    Present_spec (snd (ChangeCell 1 0 65 1 0 (fresh_session 2 2)))
      = (Done tt, s1) /\
    cells (front_buffer s1) = cells (back_buffer s1) /\
    Present_spec s1 = (Done tt, s2) /\
    tty_written s2 = tty_written s1 ++ [[]].
Proof.
  destruct (Present_twice_no_cell_output is_cursor_hidden_spec
              coord_invalid_spec send_attr_spec send_char_spec
              (snd (ChangeCell 1 0 65 1 0 (fresh_session 2 2))))
    as (s1 & s2 & E1 & Hsame & E2 & _ & _ & Hw).
  - vm_compute. repeat split; discriminate.
  - vm_compute. discriminate.
  - exists s1, s2. repeat split; try assumption.
    rewrite Hw. f_equal.
    unfold Present_spec in E1. vm_compute in E1. injection E1 as <-.
    reflexivity.
Defined.

Lemma resize_consumed_before_diff_witness :
  exists s',
    Present_spec resized_session = (Done tt, s') /\
    sigwinch_draw s' = false /\
    (width (front_buffer s'), height (front_buffer s')) = (3, 2) /\
    len (cells (front_buffer s')) = 6.
Proof.
  destruct (resize_consumed_before_diff is_cursor_hidden_spec
              coord_invalid_spec send_attr_spec send_char_spec resized_session)
    as (_ & _ & _ & _ & _ & (s' & E & Hs & _ & Hd & Hl & _) & _).
  - reflexivity.
  - vm_compute. repeat split; discriminate.
  - exists s'. repeat split; assumption.
Defined.

(** The edges on a concrete run: show on the first placement, neither
    sequence on a move from (5,5) to (6,6), hide on hiding. *)
Lemma SetCursor_show_hide_edges_witness :
  let s0 := fresh_session 8 8 in
  let s1 := snd (SetCursor_spec 5 5 s0) in
  let s2 := snd (SetCursor_spec 6 6 s1) in
  let s3 := snd (SetCursor_spec cursor_hidden cursor_hidden s2) in
  In (WriteString t_show_cursor) (appended s0 s1) /\
  (~ In (WriteString t_show_cursor) (appended s1 s2) /\
   ~ In (WriteString t_hide_cursor) (appended s1 s2)) /\
  In (WriteString t_hide_cursor) (appended s2 s3).
Proof.
  intros s0 s1 s2 s3.
  destruct (SetCursor_show_hide_edges is_cursor_hidden_spec s0 5 5)
    as (_ & _ & _ & Hshow & _).
  destruct (SetCursor_show_hide_edges is_cursor_hidden_spec s1 6 6)
    as (_ & _ & _ & _ & _ & Hsame & _).
  destruct (SetCursor_show_hide_edges is_cursor_hidden_spec s2
              cursor_hidden cursor_hidden)
    as (_ & _ & _ & _ & Hhide & _).
  split; [| split].
  - apply Hshow. split; reflexivity.
  - apply Hsame. reflexivity.
  - apply Hhide. split; reflexivity.
Defined.

End ClosedInstances.

(** ** The input reader and PollEvent: strict ping-pong *)

Module InputPipelineFacts.

Import InputPipeline.

Lemma in_step_start input : in_step (start input).
Proof. unfold in_step. simpl. auto. Qed.

Lemma in_step_preserved extract_event p q :
  in_step p -> step extract_event p q -> in_step q.
Proof.
  intros [Hpp Hst] Hstep. unfold in_step in *.
  destruct Hstep; simpl in *.
  - (* the reader reads *)
    destruct cpc; try contradiction; destruct Hst as [Ha Hh];
      (split; [split; [intros _; rewrite Ha; auto | exact Hpp] |]);
      (exists c; rewrite Ha; repeat split;
       [apply take_app_length | exact Hh]).
  - (* the slice goes to the consumer *)
    split; [exact Hpp | exact Hst].
  - (* the consumer appends *)
    destruct rpc; try contradiction.
    destruct Hst as (c & Hr & Ht & Hh).
    split; [split; [discriminate | exact Hpp] |].
    rewrite Hr, Ht. simpl. split; [reflexivity | congruence].
  - (* the slice goes back *)
    destruct Hst as [Ha Hh].
    split; [split; [discriminate | exact Hpp] | auto].
  - (* extract_event *)
    split; [split; [discriminate | exact Hpp] |].
    destruct rpc; try contradiction;
      destruct (fst (extract_event ib)); exact Hst.
  - (* PollEvent is entered *)
    split; [exact Hpp |]. destruct rpc; try contradiction; exact Hst.
  - (* a resize event is returned *)
    split; [exact Hpp |]. destruct rpc; try contradiction; exact Hst.
  - (* the signal arrives *)
    split; [exact Hpp | exact Hst].
Qed.

Lemma reachable_in_step extract_event p :
  reachable extract_event p -> in_step p.
Proof.
  induction 1 as [input | p q _ IH Hstep].
  - apply in_step_start.
  - exact (in_step_preserved _ _ _ IH Hstep).
Qed.

(** [inbuf] is what the appends and the calls of [extract_event] made of
    it. *)
Lemma inbuf_pending extract_event p :
  reachable extract_event p ->
  inbuf p = pending extract_event (history p).
Proof.
  induction 1 as [input | p q _ IH Hstep]; [reflexivity |].
  destruct Hstep; simpl in *; try exact IH.
  - rewrite IH. reflexivity.
  - rewrite IH. reflexivity.
Qed.

(** C7. In every state the reader goroutine and a single caller of
    [PollEvent] can reach over the unbuffered channel: each read was
    issued only after every earlier slice had been appended to the
    pending buffer and handed back; the bytes appended are, chunk by
    chunk and in order, the bytes read, except for the one chunk in
    flight; [inbuf] holds these appended bytes: it is the buffer that
    the appends build, each one adding its chunk at the end, with the
    calls of [extract_event] in between; and exactly one of the two
    parties owns the array behind the buffer. *)
Theorem buffer_ping_pong (extract_event : list Z -> bool * list Z)
    (p : pipeline) :
  reachable extract_event p ->
  ping_pong (history p) /\
  (appends (history p) = reads (history p) \/
   exists c, reads (history p) = c :: appends (history p)) /\
  inbuf p = pending extract_event (history p) /\
  reader_owns p = negb (consumer_owns p).
Proof.
  intros Hr. destruct (reachable_in_step _ _ Hr) as [Hpp Hst].
  split; [exact Hpp |].
  pose proof (inbuf_pending _ _ Hr) as Hin.
  unfold reader_owns, consumer_owns.
  destruct (reader p), (consumer p); simpl in *; try contradiction;
    first [ destruct Hst as [Ha Hh];
            split; [left; exact Ha | split; [exact Hin | reflexivity]]
          | destruct Hst as (c & Hc & _);
            split; [right; exists c; exact Hc
                   | split; [exact Hin | reflexivity]] ].
Qed.

Lemma after_one_exchange_reachable :
  reachable extract_one_byte after_one_exchange.
Proof.
  pose proof (reach_start extract_one_byte [[27; 91]]) as H0.
  pose proof (reach_step _ _ _ H0
                (step_poll _ _ _ _ _ _ _)) as H1.
  pose proof (reach_step _ _ _ H1
                (step_extract _ _ _ _ _ _ _)) as H2.
  pose proof (reach_step _ _ _ H2
                (step_read _ _ [27; 91] _ _ _ _ _ ltac:(simpl; lia))) as H3.
  pose proof (reach_step _ _ _ H3
                (step_forward _ _ _ _ _ _ _)) as H4.
  pose proof (reach_step _ _ _ H4
                (step_append _ _ _ _ _ _ _ _)) as H5.
  pose proof (reach_step _ _ _ H5
                (step_handback _ _ _ _ _ _ _)) as H6.
  exact H6.
Qed.

(** After one exchange of the two bytes [27; 91]: they were read once,
    appended once, and they are what [inbuf] holds. *)
Lemma buffer_ping_pong_witness :
  ping_pong (history after_one_exchange) /\
  appends (history after_one_exchange) = [[27; 91]] /\
  reads (history after_one_exchange) = [[27; 91]] /\
  inbuf after_one_exchange
    = pending extract_one_byte (history after_one_exchange) /\
  pending extract_one_byte (history after_one_exchange) = [27; 91] /\
  reader_owns after_one_exchange = negb (consumer_owns after_one_exchange).
Proof.
  destruct (buffer_ping_pong extract_one_byte after_one_exchange
              after_one_exchange_reachable) as (Hpp & _ & Hin & Hown).
  split; [exact Hpp |].
  do 2 (split; [reflexivity |]).
  split; [exact Hin |]. split; [reflexivity | exact Hown].
Defined.

End InputPipelineFacts.

(** * Part III: further facts about the same code *)

(** ** PutCell: pointer, frame, order of writes *)

Section PutCellMore.

Lemma PutCell_in_range s x y c :
  cellbuf_ok (back_buffer s) ->
  0 <= x < width (back_buffer s) -> 0 <= y < height (back_buffer s) ->
  PutCell x y (Some c) s =
    (Done tt,
     set_back_buffer
       (set_cells (<[Z.to_nat (y * width (back_buffer s) + x) := c]>
                     (cells (back_buffer s)))
          (back_buffer s)) s).
Proof.
  intros Hb Hx Hy.
  destruct (cell_index_in_range _ x y Hb Hx Hy) as [Hi Hadd].
  unfold PutCell.
  replace (x <? 0) with false by lia.
  replace (x >=? width (back_buffer s)) with false by lia.
  replace (y <? 0) with false by lia.
  replace (y >=? height (back_buffer s)) with false by lia.
  cbn [orb]. rewrite Hadd.
  replace (0 <=? y * width (back_buffer s) + x) with true by lia.
  replace (y * width (back_buffer s) + x <? len (cells (back_buffer s)))
    with true by lia.
  reflexivity.
Qed.

(** X1. A nil cell pointer makes [PutCell] panic exactly when the
    coordinates are in range: the bounds tests come first, so out of
    range the pointer is never looked at.  Either way the session is
    left as it was. *)
Theorem PutCell_nil_pointer (s : session) (x y : Z) :
  (fst (PutCell x y None s) = Panicked NilDereference <->
   0 <= x < width (back_buffer s) /\ 0 <= y < height (back_buffer s)) /\
  (fst (PutCell x y None s) = Done tt <->
   ~ (0 <= x < width (back_buffer s) /\ 0 <= y < height (back_buffer s))) /\
  snd (PutCell x y None s) = s.
Proof.
  unfold PutCell.
  destruct (decide (0 <= x < width (back_buffer s) /\
                    0 <= y < height (back_buffer s))) as [Hin | Hout].
  - replace (x <? 0) with false by lia.
    replace (x >=? width (back_buffer s)) with false by lia.
    replace (y <? 0) with false by lia.
    replace (y >=? height (back_buffer s)) with false by lia.
    cbn [orb fst snd].
    split; [split; [intros _; exact Hin | reflexivity] |].
    split; [split; [discriminate | intros Hn; contradiction] | reflexivity].
  - assert (Hret : ((x <? 0) || (x >=? width (back_buffer s))) = true \/
                   (((x <? 0) || (x >=? width (back_buffer s))) = false /\
                    ((y <? 0) || (y >=? height (back_buffer s))) = true)).
    { destruct ((x <? 0) || (x >=? width (back_buffer s))) eqn:E1; [auto |].
      destruct ((y <? 0) || (y >=? height (back_buffer s))) eqn:E2; [auto |].
      exfalso. apply Hout.
      apply orb_false_iff in E1 as [? ?]. apply orb_false_iff in E2 as [? ?].
      lia. }
    destruct Hret as [-> | [-> ->]]; cbn [fst snd];
      (split; [split; [discriminate | contradiction] |]);
      (split; [split; [intros _; exact Hout | reflexivity] | reflexivity]).
Qed.

Lemma PutCell_cells_only s x y p :
  exists cs',
    snd (PutCell x y p s)
      = set_back_buffer (set_cells cs' (back_buffer s)) s /\
    length cs' = length (cells (back_buffer s)).
Proof.
  unfold PutCell.
  destruct ((x <? 0) || (x >=? width (back_buffer s)));
    [exists (cells (back_buffer s)); rewrite set_back_buffer_id; auto |].
  destruct ((y <? 0) || (y >=? height (back_buffer s)));
    [exists (cells (back_buffer s)); rewrite set_back_buffer_id; auto |].
  destruct p as [c |];
    [| exists (cells (back_buffer s)); rewrite set_back_buffer_id; auto].
  destruct ((0 <=? _) && (_ <? _));
    [| exists (cells (back_buffer s)); rewrite set_back_buffer_id; auto].
  eexists. cbn [snd]. split; [reflexivity | apply length_insert].
Qed.

Lemma initialized_set_cells s cs' :
  length cs' = length (cells (back_buffer s)) ->
  initialized s ->
  initialized (set_back_buffer (set_cells cs' (back_buffer s)) s).
Proof.
  intros Hl (Hb & Hf & EW & EH).
  unfold initialized, cellbuf_ok, len in *. simpl. rewrite Hl. auto.
Qed.

(** X2. Whatever its arguments and outcome, [PutCell] changes nothing but
    the cells of the back grid, and keeps their number: the geometry, the
    front grid, the cursor and the pending output are as before, and an
    initialised session stays initialised. *)
Theorem PutCell_frame (s : session) (x y : Z) (p : option Cell) :
  exists cs',
    snd (PutCell x y p s)
      = set_back_buffer (set_cells cs' (back_buffer s)) s /\
    length cs' = length (cells (back_buffer s)) /\
    (initialized s -> initialized (snd (PutCell x y p s))).
Proof.
  destruct (PutCell_cells_only s x y p) as (cs' & E & L). exists cs'.
  split; [exact E |]. split; [exact L |].
  intros Hi. rewrite E. apply initialized_set_cells; assumption.
Qed.

Lemma row_major_injective W H x y x' y' :
  0 <= x < W -> 0 <= y < H -> 0 <= x' < W -> 0 <= y' < H ->
  y * W + x = y' * W + x' -> x = x' /\ y = y'.
Proof.
  intros Hx Hy Hx' Hy' E.
  assert (y = y') by nia. subst. lia.
Qed.

(** X3. Writes compose as on an array: a second [PutCell] at the same
    in-range position replaces the first, and two [PutCell]s at different
    in-range positions give the same session in either order. *)
Theorem PutCell_overwrite_and_commute (s : session) (x y x' y' : Z)
    (c1 c2 : Cell) :
  initialized s ->
  0 <= x < width (back_buffer s) -> 0 <= y < height (back_buffer s) ->
  0 <= x' < width (back_buffer s) -> 0 <= y' < height (back_buffer s) ->
  bind (PutCell x y (Some c1)) (fun _ => PutCell x y (Some c2)) s
    = PutCell x y (Some c2) s /\
  ((x, y) <> (x', y') ->
   bind (PutCell x y (Some c1)) (fun _ => PutCell x' y' (Some c2)) s
     = bind (PutCell x' y' (Some c2)) (fun _ => PutCell x y (Some c1)) s).
Proof.
  intros (Hb & _) Hx Hy Hx' Hy'.
  assert (Hb' : forall cs, length cs = length (cells (back_buffer s)) ->
            cellbuf_ok (set_cells cs (back_buffer s))).
  { intros cs Hl. unfold cellbuf_ok, len in *. simpl. rewrite Hl. exact Hb. }
  unfold bind. split.
  - rewrite (PutCell_in_range s x y c1) by assumption.
    rewrite PutCell_in_range; simpl;
      try assumption; try (apply Hb'; apply length_insert).
    rewrite list_insert_insert_eq.
    rewrite (PutCell_in_range s x y c2) by assumption. reflexivity.
  - intros Hne.
    rewrite (PutCell_in_range s x y c1) by assumption.
    rewrite (PutCell_in_range s x' y' c2) by assumption.
    rewrite !PutCell_in_range; simpl;
      try assumption; try (apply Hb'; apply length_insert).
    rewrite list_insert_insert_ne; [reflexivity |].
    intros E. apply Hne.
    destruct (row_major_injective (width (back_buffer s))
                (height (back_buffer s)) x y x' y') as [-> ->];
      try assumption; [nia | reflexivity].
Qed.

Lemma PutCell_overwrite_and_commute_witness :
  bind (PutCell 1 2 (Some (example_cell 7)))
       (fun _ => PutCell 3 0 (Some (example_cell 9))) (fresh_session 4 3)
    = bind (PutCell 3 0 (Some (example_cell 9)))
           (fun _ => PutCell 1 2 (Some (example_cell 7))) (fresh_session 4 3).
Proof.
  refine (proj2 (PutCell_overwrite_and_commute (fresh_session 4 3) 1 2 3 0
                   (example_cell 7) (example_cell 9) _ _ _ _ _) _);
    vm_compute; repeat split; discriminate || reflexivity.
Defined.

End PutCellMore.

(** ** Blit: frame, degenerate rectangles, and Blit as a loop of PutCell *)

Section BlitMore.

Lemma set_back_buffer_twice cs cs' s :
  set_back_buffer
    (set_cells cs' (back_buffer (set_back_buffer (set_cells cs (back_buffer s)) s)))
    (set_back_buffer (set_cells cs (back_buffer s)) s)
  = set_back_buffer (set_cells cs' (back_buffer s)) s.
Proof. reflexivity. Qed.

Lemma Blit_copy_frame dsti srci w src s :
  exists cs',
    snd (Blit_copy dsti srci w src s)
      = set_back_buffer (set_cells cs' (back_buffer s)) s /\
    length cs' = length (cells (back_buffer s)).
Proof.
  unfold Blit_copy.
  destruct (negb (slice_ok dsti _ _));
    [exists (cells (back_buffer s)); rewrite set_back_buffer_id; auto |].
  destruct (negb (slice_ok srci _ _));
    [exists (cells (back_buffer s)); rewrite set_back_buffer_id; auto |].
  eexists. split; [reflexivity | apply length_inserts].
Qed.

Lemma Blit_loop_frame w src n : forall dsti srci s,
  exists cs',
    snd (Blit_loop n dsti srci w src s)
      = set_back_buffer (set_cells cs' (back_buffer s)) s /\
    length cs' = length (cells (back_buffer s)).
Proof.
  induction n as [| n IH]; intros dsti srci s.
  - exists (cells (back_buffer s)). rewrite set_back_buffer_id. auto.
  - cbn [Blit_loop]. unfold bind.
    destruct (Blit_copy_frame dsti srci w src s) as (cs1 & E1 & L1).
    destruct (Blit_copy dsti srci w src s) as [[[] | p] s1]; cbn [snd] in E1.
    + subst s1.
      destruct (IH (GoInt.add dsti (width (back_buffer s))) (GoInt.add srci w)
                  (set_back_buffer (set_cells cs1 (back_buffer s)) s))
        as (cs2 & E2 & L2).
      exists cs2. rewrite E2, set_back_buffer_twice.
      split; [reflexivity |]. simpl in L2. congruence.
    + exists cs1. auto.
Qed.

Lemma Blit_cells_only s x y w cs :
  exists cs',
    snd (Blit x y w cs s)
      = set_back_buffer (set_cells cs' (back_buffer s)) s /\
    length cs' = length (cells (back_buffer s)).
Proof.
  assert (Hsame : exists cs',
            s = set_back_buffer (set_cells cs' (back_buffer s)) s /\
            length cs' = length (cells (back_buffer s)))
    by (exists (cells (back_buffer s)); rewrite set_back_buffer_id; auto).
  unfold Blit.
  destruct (w =? 0); [exact Hsame |].
  destruct ((GoInt.add x w >? _) || (x <? 0)); [exact Hsame |].
  destruct ((GoInt.add y _ >? _) || (y <? 0)); [exact Hsame |].
  apply Blit_loop_frame.
Qed.

(** X4. Whatever its arguments and outcome, a panic included, [Blit]
    changes nothing but the cells of the back grid and keeps their
    number; an initialised session stays initialised. *)
Theorem Blit_frame (s : session) (x y w : Z) (cs : list Cell) :
  exists cs',
    snd (Blit x y w cs s)
      = set_back_buffer (set_cells cs' (back_buffer s)) s /\
    length cs' = length (cells (back_buffer s)) /\
    (initialized s -> initialized (snd (Blit x y w cs s))).
Proof.
  destruct (Blit_cells_only s x y w cs) as (cs' & E & L). exists cs'.
  split; [exact E |]. split; [exact L |].
  intros Hi. rewrite E. apply initialized_set_cells; assumption.
Qed.

(** X5. A [Blit] that has no full row to copy does nothing and returns,
    wherever [x] and [y] are: this is so when [cells] holds fewer than
    [w] cells (an empty [cells] in particular), and also when [w] is
    negative, for which the derived height is not positive. *)
Theorem Blit_without_a_full_row (s : session) (x y w : Z) (cs : list Cell) :
  len cs < w \/ (w < 0 /\ len cs <= GoInt.int_max) ->
  Blit x y w cs s = (Done tt, s).
Proof.
  intros Hcase.
  assert (HN : 0 <= len cs) by (unfold len; lia).
  assert (Hh : Z.to_nat (GoInt.quot (len cs) w) = O /\ w <> 0).
  { destruct Hcase as [Hshort | [Hneg Hmax]].
    - unfold GoInt.quot. rewrite Z.quot_small by lia.
      rewrite GoIntFacts.wrap_exact by (GoIntFacts.int_consts; lia). lia.
    - unfold GoInt.quot.
      assert (Hq : - len cs <= Z.quot (len cs) w <= 0).
      { rewrite <- (Z.opp_involutive w), Z.quot_opp_r by lia.
        rewrite Z.quot_div_nonneg by lia.
        pose proof (Z.div_pos (len cs) (- w) HN ltac:(lia)).
        assert (len cs / - w <= len cs)
          by (apply Z.div_le_upper_bound; nia).
        lia. }
      rewrite GoIntFacts.wrap_exact by (GoIntFacts.int_consts; lia). lia. }
  destruct Hh as [Hh Hw]. unfold Blit.
  replace (w =? 0) with false by lia.
  destruct ((GoInt.add x w >? _) || (x <? 0)); [reflexivity |].
  destruct ((GoInt.add y _ >? _) || (y <? 0)); [reflexivity |].
  rewrite Hh. reflexivity.
Qed.

Lemma Blit_without_a_full_row_witness :
  Blit 1 1 3 (map example_cell [1; 2]) (fresh_session 4 3)
    = (Done tt, fresh_session 4 3) /\
  Blit 1 1 (-2) (map example_cell [1; 2; 3; 4]) (fresh_session 4 3)
    = (Done tt, fresh_session 4 3).
Proof.
  split.
  - apply Blit_without_a_full_row. left. vm_compute. reflexivity.
  - apply Blit_without_a_full_row. right.
    vm_compute. split; [reflexivity | discriminate].
Defined.

(** X6. A [Blit] of a whole grid's worth of cells at the origin, with
    [w] the grid width, replaces the back cells by [cells]: what is read
    back is what was written. *)
Theorem Blit_whole_grid (s : session) (cs : list Cell) :
  initialized s ->
  0 < width (back_buffer s) ->
  len cs = width (back_buffer s) * height (back_buffer s) ->
  Blit 0 0 (width (back_buffer s)) cs s
    = (Done tt, set_back_buffer (set_cells cs (back_buffer s)) s).
Proof.
  intros (Hb & _) HW Hlen.
  pose proof Hb as (_ & HH & Hl & Hmax & _).
  set (W := width (back_buffer s)) in *. set (H := height (back_buffer s)) in *.
  assert (Hh : len cs / W = H) by (rewrite Hlen, Z.mul_comm; apply Z.div_mul; lia).
  rewrite Blit_in_bounds_eq; try assumption; fold W H; try lia.
  do 3 f_equal. rewrite Hh.
  apply list_eq. intros k.
  destruct (Z_lt_dec (Z.of_nat k) (W * H)) as [Hk | Hk].
  - pose proof (Z.div_mod (Z.of_nat k) W ltac:(lia)) as Hdm.
    pose proof (Z.mod_pos_bound (Z.of_nat k) W HW) as Hm.
    assert (Hq : 0 <= Z.of_nat k / W < H).
    { split; [apply Z.div_pos; lia |].
      apply Z.div_lt_upper_bound; lia. }
    replace k with (Z.to_nat (0 * W + 0 + (Z.of_nat k / W) * W + Z.of_nat k mod W))
      at 1 by lia.
    rewrite blit_rows_lookup_in; try lia.
    f_equal. lia.
  - rewrite !lookup_ge_None_2; [reflexivity | |].
    + unfold len in Hlen. lia.
    + rewrite blit_rows_length. unfold len in Hl. fold W H in Hl. lia.
Qed.

Lemma Blit_whole_grid_witness :
  Blit 0 0 2 (map example_cell [1; 2; 3; 4; 5; 6]) (fresh_session 2 3)
    = (Done tt,
       set_back_buffer
         (set_cells (map example_cell [1; 2; 3; 4; 5; 6])
            (back_buffer (fresh_session 2 3)))
         (fresh_session 2 3)).
Proof.
  apply (Blit_whole_grid (fresh_session 2 3)
           (map example_cell [1; 2; 3; 4; 5; 6]));
    vm_compute; repeat split; discriminate || reflexivity.
Defined.

Lemma PutCell_run_eq y cs : forall x s,
  cellbuf_ok (back_buffer s) ->
  0 <= x -> x + len cs <= width (back_buffer s) ->
  0 <= y < height (back_buffer s) ->
  PutCell_run x y cs s =
    (Done tt,
     set_back_buffer
       (set_cells (list_inserts (Z.to_nat (y * width (back_buffer s) + x)) cs
                     (cells (back_buffer s)))
          (back_buffer s)) s).
Proof.
  induction cs as [| c cs IH]; intros x s Hb Hx Hxw Hy.
  - simpl. unfold ret. rewrite set_back_buffer_id. reflexivity.
  - unfold len in Hxw. simpl length in Hxw.
    cbn [PutCell_run]. unfold bind.
    rewrite PutCell_in_range by (try assumption; lia).
    rewrite IH; simpl.
    + unfold set_back_buffer, set_cells. simpl. do 3 f_equal.
      replace (Z.to_nat (y * width (back_buffer s) + (x + 1)))
        with (S (Z.to_nat (y * width (back_buffer s) + x))) by nia.
      symmetry. apply list_insert_inserts_lt. lia.
    + unfold cellbuf_ok, len in *. simpl. rewrite length_insert. exact Hb.
    + lia.
    + unfold len. lia.
    + exact Hy.
Qed.

Lemma PutCell_rows_eq x (w : nat) src n : forall y srci s,
  cellbuf_ok (back_buffer s) ->
  (0 < w)%nat -> 0 <= x -> x + Z.of_nat w <= width (back_buffer s) ->
  0 <= y -> y + Z.of_nat n <= height (back_buffer s) ->
  (srci + n * w <= length src)%nat ->
  PutCell_rows n x y w (drop srci src) s =
    (Done tt,
     set_back_buffer
       (set_cells (blit_rows n (y * width (back_buffer s) + x) (Z.of_nat srci)
                     (Z.of_nat w) (width (back_buffer s)) src
                     (cells (back_buffer s)))
          (back_buffer s)) s).
Proof.
  induction n as [| n IH]; intros y srci s Hb Hw Hx Hxw Hy Hyn Hsrc.
  - simpl. unfold ret. rewrite set_back_buffer_id. reflexivity.
  - cbn [PutCell_rows blit_rows]. unfold bind.
    assert (Hrow : take w (drop srci src)
                   = slice src (Z.of_nat srci) (Z.of_nat srci + Z.of_nat w)).
    { unfold slice. f_equal; [lia | f_equal; lia]. }
    assert (Hrl : length (take w (drop srci src)) = w)
      by (rewrite length_take, length_drop; nia).
    rewrite PutCell_run_eq; try assumption; try lia;
      [| unfold len; rewrite Hrl; lia].
    rewrite drop_drop.
    rewrite IH; simpl; try assumption; try lia.
    + rewrite Hrow. unfold set_back_buffer, set_cells. simpl.
      do 3 f_equal; try lia. f_equal; lia.
    + unfold cellbuf_ok, len in *. simpl. rewrite length_inserts. exact Hb.
Qed.

(** X7. An in-bounds [Blit] is the loop a caller would write with
    [PutCell]: row by row, cell by cell, [PutCell(x+j, y+i, &cells[i*w+j])]
    for [i < len(cells)/w] and [j < w], with the same final session. *)
Theorem Blit_as_PutCell_loop (s : session) (x y w : Z) (cs : list Cell) :
  initialized s -> 0 < w -> len cs <= GoInt.int_max ->
  0 <= x -> 0 <= y ->
  x + w <= width (back_buffer s) ->
  y + len cs / w <= height (back_buffer s) ->
  Blit x y w cs s
    = PutCell_rows (Z.to_nat (len cs / w)) x y (Z.to_nat w) cs s.
Proof.
  intros (Hb & _) Hw Hcs Hx Hy Hxw Hyh.
  assert (HN : 0 <= len cs) by (unfold len; lia).
  pose proof (Z.div_pos (len cs) w HN Hw) as Hh0.
  pose proof (Z.mul_div_le (len cs) w Hw) as Hhw.
  rewrite Blit_in_bounds_eq by assumption.
  pose proof (PutCell_rows_eq x (Z.to_nat w) cs (Z.to_nat (len cs / w))
                y O s Hb) as E.
  change (drop 0 cs) with cs in E.
  rewrite E; try lia.
  - rewrite Z2Nat.id by lia. reflexivity.
  - unfold len in *. nia.
Qed.

Lemma Blit_as_PutCell_loop_witness :
  Blit 1 1 2 (map example_cell [1; 2; 3; 4; 5]) (fresh_session 4 3)
    = PutCell_rows 2 1 1 2 (map example_cell [1; 2; 3; 4; 5]) (fresh_session 4 3).
Proof.
  apply (Blit_as_PutCell_loop (fresh_session 4 3) 1 1 2
           (map example_cell [1; 2; 3; 4; 5]));
    vm_compute; repeat split; discriminate || reflexivity.
Defined.

Lemma in_some_row_or_none (n : nat) (dsti W w k : Z) :
  (exists i, 0 <= i < Z.of_nat n /\ dsti + i * W <= k < dsti + i * W + w) \/
  (forall i, 0 <= i < Z.of_nat n -> ~ (dsti + i * W <= k < dsti + i * W + w)).
Proof.
  induction n as [| n [(i & Hi & Hin) | Hnone]].
  - right. intros i Hi. lia.
  - left. exists i. split; [lia | exact Hin].
  - destruct (decide (dsti + Z.of_nat n * W <= k < dsti + Z.of_nat n * W + w))
      as [Hin | Hout].
    + left. exists (Z.of_nat n). split; [lia | exact Hin].
    + right. intros i Hi.
      destruct (decide (i = Z.of_nat n)) as [-> | Hne]; [exact Hout |].
      apply Hnone. lia.
Qed.

(** X8. Repeating an in-bounds [Blit] changes nothing more: the second
    call writes the cells the first one wrote. *)
Theorem Blit_idempotent (s : session) (x y w : Z) (cs : list Cell) :
  initialized s -> 0 < w -> len cs <= GoInt.int_max ->
  0 <= x -> 0 <= y ->
  x + w <= width (back_buffer s) ->
  y + len cs / w <= height (back_buffer s) ->
  bind (Blit x y w cs) (fun _ => Blit x y w cs) s = Blit x y w cs s.
Proof.
  intros (Hb & _) Hw Hcs Hx Hy Hxw Hyh.
  pose proof Hb as (HW & HH & Hl & Hmax & _).
  assert (HN : 0 <= len cs) by (unfold len; lia).
  pose proof (Z.div_pos (len cs) w HN Hw) as Hh0.
  pose proof (Z.mul_div_le (len cs) w Hw) as Hhw.
  unfold bind. rewrite Blit_in_bounds_eq by assumption.
  set (W := width (back_buffer s)) in *.
  set (L1 := blit_rows _ _ _ _ _ _ _).
  assert (HL1 : length L1 = length (cells (back_buffer s)))
    by apply blit_rows_length.
  rewrite Blit_in_bounds_eq; simpl; fold W; try assumption.
  2: { unfold cellbuf_ok, len in *. simpl. rewrite HL1. exact Hb. }
  unfold set_back_buffer, set_cells. simpl. do 3 f_equal.
  apply list_eq. intros k.
  destruct (in_some_row_or_none (Z.to_nat (len cs / w)) (y * W + x) W w
              (Z.of_nat k)) as [(i & Hi & Hin) | Hnone].
  - replace k with (Z.to_nat (y * W + x + i * W + (Z.of_nat k - (y * W + x) - i * W)))
      by lia.
    assert (HnZ : Z.of_nat (Z.to_nat (len cs / w)) = len cs / w) by lia.
    rewrite HnZ in Hi.
    assert (Hfit : y * W + x + (len cs / w - 1) * W + w
                   <= W * height (back_buffer s)).
    { clear - Hi Hx Hy Hxw Hyh HW Hw. nia. }
    assert (HlenL1 : len L1 = W * height (back_buffer s))
      by (unfold len; rewrite HL1; exact Hl).
    unfold L1 at 2.
    rewrite !blit_rows_lookup_in; rewrite ?HnZ, ?HlenL1, ?Hl; fold W;
      try lia; try reflexivity.
  - apply blit_rows_lookup_out; try lia; try nia. exact Hnone.
Qed.

Lemma Blit_idempotent_witness :
  bind (Blit 1 1 2 (map example_cell [1; 2; 3; 4; 5]))
       (fun _ => Blit 1 1 2 (map example_cell [1; 2; 3; 4; 5]))
       (fresh_session 4 3)
    = Blit 1 1 2 (map example_cell [1; 2; 3; 4; 5]) (fresh_session 4 3).
Proof.
  apply (Blit_idempotent (fresh_session 4 3) 1 1 2
           (map example_cell [1; 2; 3; 4; 5]));
    vm_compute; repeat split; discriminate || reflexivity.
Defined.

End BlitMore.

(** ** Present: which cells reach the emitters *)

Section PresentMore.

Variable is_cursor_hidden : Z -> Z -> bool.

Variable coord_invalid : Z.

Variable send_attr : Attribute -> Attribute -> emitter -> emitter.

Variable send_char : Z -> Z -> rune -> emitter -> emitter.

Local Abbreviation Present_cell' := (Present_cell send_attr send_char).

Local Abbreviation Present_cols' := (Present_cols send_attr send_char).

Local Abbreviation Present_rows' := (Present_rows send_attr send_char).

Local Abbreviation Present_diff' := (Present_diff send_attr send_char).

Local Abbreviation Present' :=
  (Present is_cursor_hidden coord_invalid send_attr send_char).

Local Abbreviation cell_step' := (cell_step send_attr send_char).

Local Abbreviation cols_step' := (cols_step send_attr send_char).

Local Abbreviation rows_step' := (rows_step send_attr send_char).

Local Abbreviation emit_cells' := (emit_cells send_attr send_char).

Lemma changed_at_ext back front front' k :
  front' !! k = front !! k ->
  changed_at back front' k = changed_at back front k.
Proof. intros E. unfold changed_at. rewrite E. reflexivity. Qed.

Lemma changed_at_same back k : changed_at back back k = None.
Proof.
  unfold changed_at. destruct (back !! k); [| reflexivity].
  rewrite Cell_eqb_refl. reflexivity.
Qed.

Lemma cols_step_ext y lo back front front' n : forall x e,
  0 <= lo -> 0 <= x ->
  (forall i : nat, lo + x <= Z.of_nat i < lo + x + Z.of_nat n ->
                   front' !! i = front !! i) ->
  cols_step' n x y lo back front' e = cols_step' n x y lo back front e.
Proof.
  induction n as [| n IH]; intros x e Hlo Hx Hagree; [reflexivity |].
  cbn [cols_step]. unfold cell_step.
  rewrite (changed_at_ext back front front') by (apply Hagree; lia).
  apply IH; try lia. intros i Hi. apply Hagree. lia.
Qed.

Lemma rows_step_ext W back front front' n : forall y e,
  0 <= W -> 0 <= y ->
  (forall i : nat, y * W <= Z.of_nat i < (y + Z.of_nat n) * W ->
                   front' !! i = front !! i) ->
  rows_step' n y W back front' e = rows_step' n y W back front e.
Proof.
  induction n as [| n IH]; intros y e HW Hy Hagree; [reflexivity |].
  cbn [rows_step].
  rewrite (cols_step_ext y (y * W) back front front'); try lia; try nia.
  - apply IH; try lia. intros i Hi. apply Hagree. nia.
  - intros i Hi. apply Hagree. nia.
Qed.

Lemma Present_cell_emits x y lo s :
  0 <= lo -> 0 <= x ->
  length (cells (front_buffer s)) = length (cells (back_buffer s)) ->
  lo + x < len (cells (back_buffer s)) ->
  len (cells (back_buffer s)) <= GoInt.int_max ->
  exists cs,
    Present_cell' x y lo s =
      (Done tt,
       presented_state cs
         (cell_step' x y (Z.to_nat (lo + x)) (cells (back_buffer s))
            (cells (front_buffer s)) (em s)) s) /\
    presented (lo + x) (lo + x + 1) (cells (back_buffer s))
      (cells (front_buffer s)) cs.
Proof.
  intros Hlo Hx Hlen Hin Hmax. unfold Present_cell, cell_step, changed_at.
  rewrite GoIntFacts.add_exact by (GoIntFacts.int_consts; lia).
  assert (Hlenf : len (cells (front_buffer s)) = len (cells (back_buffer s)))
    by (unfold len; lia).
  rewrite Hlenf.
  replace (0 <=? lo + x) with true by lia.
  replace (lo + x <? len (cells (back_buffer s))) with true by lia.
  cbn [andb negb].
  destruct (lookup_lt_is_Some_2 (cells (back_buffer s)) (Z.to_nat (lo + x)))
    as [b Hb]; [unfold len in Hin; lia |].
  destruct (lookup_lt_is_Some_2 (cells (front_buffer s)) (Z.to_nat (lo + x)))
    as [f Hf]; [unfold len in Hin; lia |].
  rewrite Hb, Hf.
  destruct (Cell_eqb b f) eqn:Heq.
  - apply Cell_eqb_eq in Heq. subst f.
    exists (cells (front_buffer s)).
    rewrite presented_state_id. split; [reflexivity |].
    split; [reflexivity |]. intros i. split; [| reflexivity].
    intros Hi. replace i with (Z.to_nat (lo + x)) by lia. congruence.
  - eexists. split; [reflexivity |].
    split; [apply length_insert |]. intros i. split.
    + intros Hi. replace i with (Z.to_nat (lo + x)) by lia.
      rewrite list_lookup_insert_eq by (unfold len in Hin; lia).
      congruence.
    + intros Hi. apply list_lookup_insert_ne. lia.
Qed.

Lemma Present_cols_emits y lo n : forall x s,
  0 <= lo -> 0 <= x ->
  length (cells (front_buffer s)) = length (cells (back_buffer s)) ->
  lo + x + Z.of_nat n <= len (cells (back_buffer s)) ->
  len (cells (back_buffer s)) <= GoInt.int_max ->
  exists cs,
    Present_cols' n x y lo s =
      (Done tt,
       presented_state cs
         (cols_step' n x y lo (cells (back_buffer s))
            (cells (front_buffer s)) (em s)) s) /\
    presented (lo + x) (lo + x + Z.of_nat n) (cells (back_buffer s))
      (cells (front_buffer s)) cs.
Proof.
  induction n as [| n IH]; intros x s Hlo Hx Hlen Hin Hmax.
  - exists (cells (front_buffer s)). cbn [Present_cols cols_step].
    unfold ret. rewrite presented_state_id. split; [reflexivity |].
    rewrite Z.add_0_r. apply presented_refl.
  - cbn [Present_cols cols_step]. unfold bind.
    destruct (Present_cell_emits x y lo s) as (cs1 & E1 & P1);
      try assumption; try lia.
    rewrite E1.
    rewrite GoIntFacts.add_exact by (GoIntFacts.int_consts; lia).
    destruct (IH (x + 1) (presented_state cs1
                            (cell_step' x y (Z.to_nat (lo + x))
                               (cells (back_buffer s))
                               (cells (front_buffer s)) (em s)) s))
      as (cs2 & E2 & P2); try assumption; try lia.
    + simpl. rewrite (proj1 P1). exact Hlen.
    + simpl. lia.
    + rewrite E2, presented_state_twice. exists cs2.
      simpl in P2 |- *. split.
      * do 2 f_equal. apply cols_step_ext; try lia.
        intros i Hi. apply (proj2 P1 i). lia.
      * apply (presented_trans _ (lo + x + 1) _ _ _ cs1); [lia | exact P1 |].
        replace (lo + x + 1) with (lo + (x + 1)) by lia.
        replace (lo + x + Z.of_nat (S n)) with (lo + (x + 1) + Z.of_nat n) by lia.
        exact P2.
Qed.

Lemma Present_rows_emits n : forall y s,
  0 <= y -> 0 <= width (front_buffer s) ->
  y + Z.of_nat n <= GoInt.int_max ->
  length (cells (front_buffer s)) = length (cells (back_buffer s)) ->
  (y + Z.of_nat n) * width (front_buffer s) <= len (cells (back_buffer s)) ->
  len (cells (back_buffer s)) <= GoInt.int_max ->
  exists cs,
    Present_rows' n y s =
      (Done tt,
       presented_state cs
         (rows_step' n y (width (front_buffer s)) (cells (back_buffer s))
            (cells (front_buffer s)) (em s)) s) /\
    presented (y * width (front_buffer s))
      ((y + Z.of_nat n) * width (front_buffer s))
      (cells (back_buffer s)) (cells (front_buffer s)) cs.
Proof.
  induction n as [| n IH]; intros y s Hy HW Hyn Hlen Hin Hmax.
  - exists (cells (front_buffer s)). cbn [Present_rows rows_step].
    unfold ret. rewrite presented_state_id. split; [reflexivity |].
    rewrite Z.add_0_r. apply presented_refl.
  - cbn [Present_rows rows_step]. unfold bind.
    set (W := width (front_buffer s)) in *.
    assert (HyW : 0 <= y * W /\ y * W + W <= (y + Z.of_nat (S n)) * W) by nia.
    rewrite GoIntFacts.mul_exact by (GoIntFacts.int_consts; lia).
    destruct (Present_cols_emits y (y * W) (Z.to_nat W) 0 s)
      as (cs1 & E1 & P1); try assumption; try lia.
    rewrite E1.
    rewrite GoIntFacts.add_exact by (GoIntFacts.int_consts; lia).
    destruct (IH (y + 1) (presented_state cs1
                            (cols_step' (Z.to_nat W) 0 y (y * W)
                               (cells (back_buffer s))
                               (cells (front_buffer s)) (em s)) s))
      as (cs2 & E2 & P2); try assumption; try lia.
    + simpl. rewrite (proj1 P1). exact Hlen.
    + simpl. fold W. lia.
    + rewrite E2, presented_state_twice. exists cs2.
      simpl in P2 |- *. fold W in P2 |- *. split.
      * do 2 f_equal. apply rows_step_ext; try lia.
        intros i Hi. apply (proj2 P1 i). lia.
      * apply (presented_trans _ ((y + 1) * W) _ _ _ cs1); [lia | |].
        -- replace ((y + 1) * W) with (y * W + 0 + Z.of_nat (Z.to_nat W)) by lia.
           replace (y * W) with (y * W + 0) at 1 by lia. exact P1.
        -- replace (y + Z.of_nat (S n)) with (y + 1 + Z.of_nat n) by lia.
           exact P2.
Qed.

Lemma emit_cells_omap {K} (f : K -> option (Z * Z * Cell)) (l : list K) :
  forall e,
    emit_cells' (omap f l) e
      = foldl (fun e k => match f k with
                          | Some c => emit_cell send_attr send_char e c
                          | None => e
                          end) e l.
Proof.
  unfold emit_cells.
  induction l as [| k l IH]; intros e; [reflexivity |].
  cbn [omap list_omap foldl]. destruct (f k) as [c |]; cbn [foldl]; apply IH.
Qed.

(** The step of the scan at flat index [k] of a grid of width [W]. *)
Local Abbreviation flat_step W back front :=
  (fun e (k : nat) =>
     match (fun b => (Z.of_nat k mod W, Z.of_nat k / W, b))
             <$> changed_at back front k with
     | Some c => emit_cell send_attr send_char e c
     | None => e
     end).

Lemma cols_step_flat W back front y n : forall x e,
  0 <= y -> 0 <= x -> x + Z.of_nat n <= W ->
  cols_step' n x y (y * W) back front e
    = foldl (flat_step W back front) e (seq (Z.to_nat (y * W + x)) n).
Proof.
  induction n as [| n IH]; intros x e Hy Hx Hxn; [reflexivity |].
  cbn [cols_step seq foldl].
  assert (HyW : 0 <= y * W) by nia.
  rewrite IH by lia.
  replace (Z.to_nat (y * W + (x + 1))) with (S (Z.to_nat (y * W + x))) by lia.
  f_equal. unfold cell_step.
  rewrite Z2Nat.id by lia.
  replace ((y * W + x) mod W) with x
    by (symmetry; rewrite Z.add_comm, Z.mod_add by lia; apply Z.mod_small; lia).
  replace ((y * W + x) / W) with y
    by (symmetry; rewrite Z.add_comm, Z.div_add by lia;
        rewrite Z.div_small by lia; lia).
  destruct (changed_at back front (Z.to_nat (y * W + x))); reflexivity.
Qed.

Lemma rows_step_flat W back front n : forall y e,
  0 <= y -> 0 <= W ->
  rows_step' n y W back front e
    = foldl (flat_step W back front) e
        (seq (Z.to_nat (y * W)) (n * Z.to_nat W)).
Proof.
  induction n as [| n IH]; intros y e Hy HW; [reflexivity |].
  cbn [rows_step]. rewrite IH by lia.
  rewrite (cols_step_flat W) by lia.
  replace (S n * Z.to_nat W)%nat with (Z.to_nat W + n * Z.to_nat W)%nat by lia.
  rewrite seq_app, foldl_app.
  replace (y * W + 0) with (y * W) by lia.
  replace (Z.to_nat (y * W) + Z.to_nat W)%nat with (Z.to_nat ((y + 1) * W)) by nia.
  reflexivity.
Qed.

(** The scan of an initialised session, with the emitter it leaves. *)
Lemma Present_diff_emits s :
  initialized s ->
  Present_diff' s =
    (Done tt,
     presented_state (cells (back_buffer s))
       (emit_cells' (differing_cells (width (back_buffer s))
                       (cells (back_buffer s)) (cells (front_buffer s)))
          (em s)) s).
Proof.
  intros ((HW & HH & Hlen & Hmax & HWm & HHm) & (_ & _ & Hlenf & _) & EW & EH).
  unfold Present_diff.
  assert (Hll : length (cells (front_buffer s)) = length (cells (back_buffer s)))
    by (rewrite EW, EH in Hlenf; unfold len in *; lia).
  destruct (Present_rows_emits (Z.to_nat (height (front_buffer s))) 0 s)
    as (cs & E & P); try lia.
  rewrite E. f_equal. f_equal.
  - apply (presented_all _ (cells (front_buffer s))); [lia |].
    replace (len (cells (back_buffer s)))
      with ((0 + Z.of_nat (Z.to_nat (height (front_buffer s))))
            * width (front_buffer s)) by (rewrite Hlen, EW, EH; lia).
    exact P.
  - rewrite rows_step_flat by lia.
    unfold differing_cells. rewrite emit_cells_omap.
    rewrite EW, EH. f_equal. f_equal. unfold len in Hlen. nia.
Qed.

(** [Present] with no resize pending, in one equation. *)
Lemma Present_no_resize_eq s :
  initialized s -> sigwinch_draw s = false ->
  Present' s =
    (Done tt,
     flush
       (Present_cursor is_cursor_hidden
          (presented_state (cells (back_buffer s))
             (emit_cells' (differing_cells (width (back_buffer s))
                             (cells (back_buffer s)) (cells (front_buffer s)))
                (set_last coord_invalid coord_invalid (em s)))
             (set_em (set_last coord_invalid coord_invalid (em s)) s)))).
Proof.
  intros Hi Hslot. unfold Present.
  set (s1 := set_em (set_last coord_invalid coord_invalid (em s)) s).
  assert (Ec : consume_resize s1 = s1)
    by (unfold consume_resize, s1; simpl; rewrite Hslot; reflexivity).
  rewrite Ec. rewrite (Present_diff_emits s1 Hi). reflexivity.
Qed.

(** X9. With no resize pending, [Present] on an initialised session
    returns; it hands to [send_attr] and [send_char] exactly the cells
    whose back and front values differ, in row-major order, each with its
    column and row; its single write is the pending output those calls
    left, followed by the move to the cursor when the cursor is visible;
    afterwards the pending output is empty, the front cells are the back
    cells, and the back grid and the cursor are as they were. *)
Theorem Present_emits_differing_cells (s : session) :
  initialized s -> sigwinch_draw s = false ->
  let changed := differing_cells (width (back_buffer s))
                   (cells (back_buffer s)) (cells (front_buffer s)) in
  let e := emit_cells' changed
             (set_last coord_invalid coord_invalid (em s)) in
  exists s',
    Present' s = (Done tt, s') /\
    tty_written s' =
      tty_written s ++
        [outbuf e ++
         if is_cursor_hidden (cursor_x s) (cursor_y s) then []
         else [Fprintf t_move_cursor (GoInt.add (cursor_y s) 1)
                                     (GoInt.add (cursor_x s) 1)]] /\
    outbuf (em s') = [] /\
    cells (front_buffer s') = cells (back_buffer s) /\
    back_buffer s' = back_buffer s /\
    (cursor_x s', cursor_y s') = (cursor_x s, cursor_y s).
Proof.
  intros Hi Hslot changed e.
  eexists. split; [apply Present_no_resize_eq; assumption |].
  fold changed. fold e.
  unfold flush, Present_cursor, presented_state.
  cbn [cursor_x cursor_y set_front_buffer set_em].
  destruct (is_cursor_hidden (cursor_x s) (cursor_y s)); simpl;
    rewrite ?app_nil_r; auto.
Qed.

Lemma omap_all_None {K B} (f : K -> option B) (l : list K) :
  (forall k, In k l -> f k = None) -> omap f l = [].
Proof.
  induction l as [| k l IH]; intros Hf; [reflexivity |].
  cbn [omap list_omap]. rewrite (Hf k) by (left; reflexivity).
  apply IH. intros k' Hk'. apply Hf. right. exact Hk'.
Qed.

Lemma differing_cells_one W (front : list Cell) (k0 : nat) (c c0 : Cell) :
  front !! k0 = Some c0 -> c <> c0 ->
  differing_cells W (<[k0 := c]> front) front
    = [(Z.of_nat k0 mod W, Z.of_nat k0 / W, c)].
Proof.
  intros Hk0 Hne.
  assert (Hlt : (k0 < length front)%nat) by (eapply lookup_lt_Some; eauto).
  unfold differing_cells. rewrite length_insert.
  replace (length front) with (k0 + S (length front - S k0))%nat by lia.
  rewrite seq_app. cbn [seq Nat.add]. rewrite omap_app. cbn [omap list_omap].
  assert (Hother : forall k, k <> k0 ->
            changed_at (<[k0 := c]> front) front k = None).
  { intros k Hk. unfold changed_at.
    rewrite list_lookup_insert_ne by congruence.
    destruct (front !! k); [| reflexivity].
    rewrite Cell_eqb_refl. reflexivity. }
  rewrite !omap_all_None.
  - unfold changed_at. rewrite list_lookup_insert_eq by exact Hlt. rewrite Hk0.
    destruct (Cell_eqb c c0) eqn:E; [apply Cell_eqb_eq in E; contradiction |].
    reflexivity.
  - intros k Hk. apply in_seq in Hk. rewrite Hother by lia. reflexivity.
  - intros k Hk. apply in_seq in Hk. rewrite Hother by lia. reflexivity.
Qed.

(** X10. Diff precision.  On an initialised session whose grids are in
    step, a [PutCell] of a cell that differs from the one at in-range
    [(x, y)], followed by [Present], calls [send_attr] and [send_char]
    once, for that cell at that column and row, and for no other cell;
    the front cell at [y*width+x] then is the new cell. *)
Theorem Present_after_one_PutCell (s : session) (x y : Z) (c : Cell) :
  initialized s -> sigwinch_draw s = false ->
  cells (front_buffer s) = cells (back_buffer s) ->
  0 <= x < width (back_buffer s) -> 0 <= y < height (back_buffer s) ->
  cells (back_buffer s) !! Z.to_nat (y * width (back_buffer s) + x) <> Some c ->
  let e := send_char x y (Ch c)
             (send_attr (Fg c) (Bg c)
                (set_last coord_invalid coord_invalid (em s))) in
  exists s',
    bind (PutCell x y (Some c)) (fun _ => Present') s = (Done tt, s') /\
    tty_written s' =
      tty_written s ++
        [outbuf e ++
         if is_cursor_hidden (cursor_x s) (cursor_y s) then []
         else [Fprintf t_move_cursor (GoInt.add (cursor_y s) 1)
                                     (GoInt.add (cursor_x s) 1)]] /\
    cells (front_buffer s') !! Z.to_nat (y * width (back_buffer s) + x)
      = Some c /\
    cells (front_buffer s') = cells (back_buffer s').
Proof.
  intros Hi Hslot Hsync Hx Hy Hdiff e.
  pose proof Hi as (Hb & Hf & EW & EH).
  destruct (cell_index_in_range _ x y Hb Hx Hy) as [Hidx _].
  set (k := Z.to_nat (y * width (back_buffer s) + x)) in *.
  assert (Hk : (k < length (cells (back_buffer s)))%nat)
    by (unfold len in Hidx; lia).
  destruct (lookup_lt_is_Some_2 _ _ Hk) as [c0 Hc0].
  assert (Hne : c <> c0) by (intros ->; apply Hdiff; exact Hc0).
  unfold bind. rewrite PutCell_in_range by assumption. fold k.
  set (s1 := set_back_buffer _ s).
  assert (Hi1 : initialized s1).
  { unfold s1, initialized, cellbuf_ok, len in *. simpl.
    rewrite length_insert. auto. }
  rewrite (Present_no_resize_eq s1 Hi1 Hslot).
  eexists. split; [reflexivity |].
  assert (Hch : differing_cells (width (back_buffer s1))
                  (cells (back_buffer s1)) (cells (front_buffer s1))
                = [(x, y, c)]).
  { unfold s1. simpl. rewrite Hsync.
    rewrite (differing_cells_one _ _ k c c0 Hc0 Hne).
    unfold k. rewrite Z2Nat.id by lia.
    assert (HW : 0 < width (back_buffer s)) by lia.
    replace ((y * width (back_buffer s) + x) mod width (back_buffer s)) with x
      by (symmetry; rewrite Z.add_comm, Z.mod_add by lia;
          apply Z.mod_small; lia).
    replace ((y * width (back_buffer s) + x) / width (back_buffer s)) with y
      by (symmetry; rewrite Z.add_comm, Z.div_add by lia;
          rewrite Z.div_small by lia; lia).
    reflexivity. }
  rewrite Hch.
  assert (Hput : <[k := c]> (cells (back_buffer s)) !! k = Some c)
    by (apply list_lookup_insert_eq; exact Hk).
  unfold flush, Present_cursor, presented_state, emit_cells, emit_cell, s1.
  cbn [foldl cursor_x cursor_y set_front_buffer set_back_buffer set_em].
  fold e.
  destruct (is_cursor_hidden (cursor_x s) (cursor_y s)); simpl;
    rewrite ?app_nil_r; auto.
Qed.

Local Abbreviation SetCursor' := (SetCursor is_cursor_hidden).

Local Abbreviation HideCursor' := (HideCursor is_cursor_hidden).

Lemma SetCursor_keeps_grids x y s :
  fst (SetCursor' x y s) = Done tt /\
  back_buffer (snd (SetCursor' x y s)) = back_buffer s /\
  front_buffer (snd (SetCursor' x y s)) = front_buffer s /\
  sigwinch_draw (snd (SetCursor' x y s)) = sigwinch_draw s /\
  tty_written (snd (SetCursor' x y s)) = tty_written s /\
  cursor_x (snd (SetCursor' x y s)) = x /\
  cursor_y (snd (SetCursor' x y s)) = y.
Proof. unfold SetCursor. simpl. auto 10. Qed.

(** X11. The cursor position stored by [SetCursor] is the one [Present]
    moves to: after [SetCursor(x, y)] with a visible target, the write of
    the next [Present] ends with the move whose parameters are row [y+1]
    and column [x+1]. *)
Theorem Present_moves_to_the_stored_cursor (s : session) (x y : Z) :
  initialized s -> sigwinch_draw s = false ->
  is_cursor_hidden x y = false ->
  exists s' items,
    bind (SetCursor' x y) (fun _ => Present') s = (Done tt, s') /\
    tty_written s' =
      tty_written s ++
        [items ++ [Fprintf t_move_cursor (GoInt.add y 1) (GoInt.add x 1)]].
Proof.
  intros Hi Hslot Hvis.
  destruct (SetCursor_keeps_grids x y s) as (Ho & Hb & Hf & Hs & Hw & Hx & Hy).
  unfold bind.
  destruct (SetCursor' x y s) as [o s1]. cbn [fst snd] in *. subst o.
  assert (Hi1 : initialized s1).
  { unfold initialized in *. rewrite Hb, Hf. exact Hi. }
  rewrite Present_no_resize_eq by (try assumption; congruence).
  eexists. eexists. split; [reflexivity |].
  unfold flush, Present_cursor, presented_state. simpl.
  rewrite Hx, Hy, Hvis. simpl. rewrite Hw. reflexivity.
Qed.

(** X12. The clear attributes play no part in [Present]: with no resize
    pending, setting them before or after a [Present] gives the same
    outcome and the same session. *)
Theorem SetClearAttributes_commutes_with_Present (s : session)
    (fg bg : Attribute) :
  initialized s -> sigwinch_draw s = false ->
  bind (SetClearAttributes fg bg) (fun _ => Present') s
    = bind Present' (fun _ => SetClearAttributes fg bg) s.
Proof.
  intros Hi Hslot. unfold bind, SetClearAttributes, modify.
  rewrite (Present_no_resize_eq s Hi Hslot).
  rewrite Present_no_resize_eq; [| exact Hi | exact Hslot].
  unfold flush, Present_cursor, presented_state. simpl.
  destruct (is_cursor_hidden (cursor_x s) (cursor_y s)); reflexivity.
Qed.

(** X13. Hiding twice is hiding once, provided the hidden pair itself
    tests as hidden: the second [HideCursor] appends nothing and leaves
    the session as the first one left it; and a [Present] after it ends
    its write without a cursor move. *)
Theorem HideCursor_idempotent (s : session) :
  is_cursor_hidden cursor_hidden cursor_hidden = true ->
  bind HideCursor' (fun _ => HideCursor') s = HideCursor' s /\
  (initialized s -> sigwinch_draw s = false ->
   exists s' e,
     bind HideCursor' (fun _ => Present') s = (Done tt, s') /\
     tty_written s' = tty_written s ++ [outbuf e] /\
     e = emit_cells' (differing_cells (width (back_buffer s))
                        (cells (back_buffer s)) (cells (front_buffer s)))
           (set_last coord_invalid coord_invalid
              (em (snd (HideCursor' s))))).
Proof.
  intros Hh. split.
  - unfold bind, HideCursor, SetCursor. simpl. rewrite Hh. simpl.
    destruct (is_cursor_hidden (cursor_x s) (cursor_y s)); reflexivity.
  - intros Hi Hslot.
    destruct (SetCursor_keeps_grids cursor_hidden cursor_hidden s)
      as (Ho & Hb & Hf & Hs & Hw & Hx & Hy).
    unfold bind, HideCursor.
    destruct (SetCursor' cursor_hidden cursor_hidden s) as [o s1].
    cbn [fst snd] in *. subst o.
    assert (Hi1 : initialized s1).
    { unfold initialized in *. rewrite Hb, Hf. exact Hi. }
    rewrite Present_no_resize_eq by (try assumption; congruence).
    eexists. eexists. split; [reflexivity |].
    unfold flush, Present_cursor, presented_state. simpl.
    rewrite Hx, Hy, Hh. simpl. rewrite Hw, Hb, Hf. split; reflexivity.
Qed.

End PresentMore.

(** ** Input mode and Clear *)

Section ModeAndClear.

(** X14. The mode [SetInputMode] returns is the mode stored when it
    returns; any value other than [InputCurrent] is stored as it is,
    without validation, and a query right after returns it; and the
    stored mode never becomes [InputCurrent] unless it already was. *)
Theorem SetInputMode_round_trip (s : session) (m : InputMode) :
  let r := fst (SetInputMode m s) in
  let s' := snd (SetInputMode m s) in
  r = Done (input_mode s') /\
  (m <> InputCurrent -> input_mode s' = m) /\
  SetInputMode InputCurrent s' = (r, s') /\
  (input_mode s <> InputCurrent -> input_mode s' <> InputCurrent).
Proof.
  unfold SetInputMode, InputCurrent.
  destruct (Z.eqb_spec m 0) as [-> | Hne]; simpl; repeat split; auto;
    intros; try congruence.
Qed.

Lemma SetInputMode_round_trip_witness :
  SetInputMode InputCurrent (snd (SetInputMode 7 (fresh_session 2 2)))
    = (Done 7, snd (SetInputMode 7 (fresh_session 2 2))) /\
  input_mode (snd (SetInputMode 7 (fresh_session 2 2))) = 7.
Proof.
  destruct (SetInputMode_round_trip (fresh_session 2 2) 7)
    as (_ & Hset & Hquery & _).
  split; [exact Hquery | apply Hset; discriminate].
Defined.

(** X15. With no resize pending, [Clear] changes nothing but the cells of
    the back grid: their number and the geometry are kept, every one of
    them carries the attributes last given to [SetClearAttributes], the
    front grid, the cursor and the pending output are untouched, and an
    initialised session stays initialised.  ([cellbuf.clear] is the one
    described in the package's specification.) *)
Theorem Clear_after_SetClearAttributes (s : session) (fg bg : Attribute) :
  sigwinch_draw s = false ->
  let s' := snd (bind (SetClearAttributes fg bg) (fun _ => Clear) s) in
  fst (bind (SetClearAttributes fg bg) (fun _ => Clear) s) = Done tt /\
  (forall k c, cells (back_buffer s') !! k = Some c ->
               Fg c = fg /\ Bg c = bg) /\
  length (cells (back_buffer s')) = length (cells (back_buffer s)) /\
  (width (back_buffer s'), height (back_buffer s'))
    = (width (back_buffer s), height (back_buffer s)) /\
  front_buffer s' = front_buffer s /\
  em s' = em s /\
  (cursor_x s', cursor_y s') = (cursor_x s, cursor_y s) /\
  tty_written s' = tty_written s /\
  (initialized s -> initialized s').
Proof.
  intros Hslot s'. subst s'.
  unfold bind, SetClearAttributes, modify, Clear, consume_resize.
  cbn [sigwinch_draw set_clear_attributes].
  rewrite Hslot. cbn [fst snd].
  split; [reflexivity |]. split.
  - simpl. intros k c Hk. apply lookup_replicate_1 in Hk.
    destruct Hk as [Hc _]. subst c. auto.
  - simpl. rewrite length_replicate.
    do 6 (split; [reflexivity |]).
    intros (Hb & Hf & EW & EH). unfold initialized, cellbuf_ok, len in *.
    simpl. rewrite length_replicate. auto.
Qed.

Lemma Clear_after_SetClearAttributes_witness :
  length (cells (back_buffer
            (snd (bind (SetClearAttributes 3 4) (fun _ => Clear)
                    (fresh_session 2 2))))) = 4%nat /\
  (forall k c,
     cells (back_buffer
              (snd (bind (SetClearAttributes 3 4) (fun _ => Clear)
                      (fresh_session 2 2)))) !! k = Some c ->
     Fg c = 3 /\ Bg c = 4).
Proof.
  destruct (Clear_after_SetClearAttributes (fresh_session 2 2) 3 4)
    as (_ & Hattr & Hlen & _).
  - reflexivity.
  - split; [rewrite Hlen; reflexivity | exact Hattr].
Defined.

End ModeAndClear.

(** ** The facts about [Present] on concrete sessions *)

Section MoreInstances.

(** A 2 by 2 session whose back grid holds an ['A'] at (1, 0) that the
    front grid does not have yet. *)
Lemma Present_emits_differing_cells_witness :
  exists s',
    Present_spec (snd (ChangeCell 1 0 65 1 0 (fresh_session 2 2)))
      = (Done tt, s') /\
    tty_written s' =
      [[Fprintf t_sgr 1 0; Fprintf t_move_cursor 1 2; WriteRune 65]] /\
    outbuf (em s') = [].
Proof.
  destruct (Present_emits_differing_cells is_cursor_hidden_spec
              coord_invalid_spec send_attr_spec send_char_spec
              (snd (ChangeCell 1 0 65 1 0 (fresh_session 2 2))))
    as (s' & E & Hw & Ho & _).
  - vm_compute. repeat split; discriminate.
  - reflexivity.
  - exists s'. split; [exact E |]. split; [| exact Ho].
    rewrite Hw. reflexivity.
Defined.

Lemma Present_after_one_PutCell_witness :
  exists s',
    bind (PutCell 1 0 (Some (mkCell 65 1 0))) (fun _ => Present_spec)
      (fresh_session 2 2) = (Done tt, s') /\
    tty_written s' =
      [[Fprintf t_sgr 1 0; Fprintf t_move_cursor 1 2; WriteRune 65]] /\
    cells (front_buffer s') !! 1%nat = Some (mkCell 65 1 0).
Proof.
  destruct (Present_after_one_PutCell is_cursor_hidden_spec
              coord_invalid_spec send_attr_spec send_char_spec
              (fresh_session 2 2) 1 0 (mkCell 65 1 0))
    as (s' & E & Hw & Hc & _).
  - vm_compute. repeat split; discriminate.
  - reflexivity.
  - reflexivity.
  - simpl. lia.
  - simpl. lia.
  - vm_compute. discriminate.
  - exists s'. split; [exact E |]. split; [rewrite Hw; reflexivity | exact Hc].
Defined.

Lemma Present_moves_to_the_stored_cursor_witness :
  exists s' items,
    bind (SetCursor_spec 1 0) (fun _ => Present_spec) (fresh_session 2 2)
      = (Done tt, s') /\
    tty_written s' = [items ++ [Fprintf t_move_cursor 1 2]].
Proof.
  destruct (Present_moves_to_the_stored_cursor is_cursor_hidden_spec
              coord_invalid_spec send_attr_spec send_char_spec
              (fresh_session 2 2) 1 0)
    as (s' & items & E & Hw).
  - vm_compute. repeat split; discriminate.
  - reflexivity.
  - reflexivity.
  - exists s', items. split; [exact E | exact Hw].
Defined.

Lemma SetClearAttributes_commutes_with_Present_witness :
  bind (SetClearAttributes 3 4) (fun _ => Present_spec) (fresh_session 2 2)
    = bind Present_spec (fun _ => SetClearAttributes 3 4) (fresh_session 2 2).
Proof.
  apply (SetClearAttributes_commutes_with_Present is_cursor_hidden_spec
           coord_invalid_spec send_attr_spec send_char_spec).
  - vm_compute. repeat split; discriminate.
  - reflexivity.
Defined.

Lemma HideCursor_idempotent_witness :
  let s := snd (SetCursor_spec 1 0 (fresh_session 2 2)) in
  bind (HideCursor is_cursor_hidden_spec)
       (fun _ => HideCursor is_cursor_hidden_spec) s
    = HideCursor is_cursor_hidden_spec s.
Proof.
  apply (HideCursor_idempotent is_cursor_hidden_spec coord_invalid_spec
           send_attr_spec send_char_spec).
  reflexivity.
Defined.

End MoreInstances.

(** ** Init and Shutdown *)

Ltac bitwise :=
  apply Z.bits_inj'; intros ?n ?Hn;
  repeat first [rewrite Z.land_spec | rewrite Z.ldiff_spec
               | rewrite Z.lor_spec | rewrite Z.bits_0];
  repeat match goal with
         | |- context [Z.testbit ?a ?n] => destruct (Z.testbit a n)
         end;
  reflexivity.

Ltac bit_kept :=
  intros ?n ?Hn ?HF;
  repeat first [rewrite Z.ldiff_spec | rewrite Z.lor_spec];
  repeat match goal with
         | H : Forall _ (_ :: _) |- _ => inversion H; clear H; subst
         end;
  repeat match goal with
         | H : Z.testbit _ _ = false |- _ => rewrite H; clear H
         end;
  cbn [orb negb]; rewrite ?andb_true_r, ?orb_false_r; reflexivity.

Section RawMode.

Variable K : syscall_consts.

Lemma raw_mode_Cc_idempotent (cc : list Z) :
  <[VTIME K := 0]> (<[VMIN K := 1]> (<[VTIME K := 0]> (<[VMIN K := 1]> cc)))
    = <[VTIME K := 0]> (<[VMIN K := 1]> cc).
Proof.
  destruct (decide (VMIN K = VTIME K)) as [E | N].
  - rewrite E. rewrite !list_insert_insert_eq. reflexivity.
  - rewrite (list_insert_insert_ne _ (VMIN K) (VTIME K) 1 0) by exact N.
    rewrite !list_insert_insert_eq. reflexivity.
Qed.

(** X16. The attributes [Init] gives to the terminal, whatever the
    attributes it read: every input, output and local flag the code
    lists is off; of the character-size and parity bits only those of
    [CS8] are on; every bit outside the listed flags is as it was; with
    [VMIN] and [VTIME] two different slots of the control characters, a
    read waits for one byte and has no timeout, and no other slot
    changes; and deriving the attributes from already derived ones
    changes nothing. *)
Theorem raw_mode_flags (t : termios) :
  let t' := raw_mode K t in
  Forall (fun f => Z.land (Iflag t') f = 0)
    [IGNBRK K; BRKINT K; PARMRK K; ISTRIP K; INLCR K; IGNCR K; ICRNL K;
     IXON K] /\
  Z.land (Oflag t') (OPOST K) = 0 /\
  Forall (fun f => Z.land (Lflag t') f = 0)
    [ECHO K; ECHONL K; ICANON K; ISIG K; IEXTEN K] /\
  Z.land (Cflag t') (CS8 K) = CS8 K /\
  Z.land (Cflag t') (Z.ldiff (Z.lor (CSIZE K) (PARENB K)) (CS8 K)) = 0 /\
  (forall n, 0 <= n ->
     Forall (fun f => Z.testbit f n = false)
       [IGNBRK K; BRKINT K; PARMRK K; ISTRIP K; INLCR K; IGNCR K; ICRNL K;
        IXON K] ->
     Z.testbit (Iflag t') n = Z.testbit (Iflag t) n) /\
  (forall n, 0 <= n -> Forall (fun f => Z.testbit f n = false) [OPOST K] ->
     Z.testbit (Oflag t') n = Z.testbit (Oflag t) n) /\
  (forall n, 0 <= n ->
     Forall (fun f => Z.testbit f n = false)
       [ECHO K; ECHONL K; ICANON K; ISIG K; IEXTEN K] ->
     Z.testbit (Lflag t') n = Z.testbit (Lflag t) n) /\
  (forall n, 0 <= n ->
     Forall (fun f => Z.testbit f n = false) [CSIZE K; PARENB K; CS8 K] ->
     Z.testbit (Cflag t') n = Z.testbit (Cflag t) n) /\
  ((VMIN K < length (Cc t))%nat -> (VTIME K < length (Cc t))%nat ->
   VMIN K <> VTIME K ->
   Cc t' !! VMIN K = Some 1 /\ Cc t' !! VTIME K = Some 0 /\
   length (Cc t') = length (Cc t) /\
   forall i, i <> VMIN K -> i <> VTIME K -> Cc t' !! i = Cc t !! i) /\
  raw_mode K t' = t'.
Proof.
  intros t'. subst t'. unfold raw_mode. cbn [Iflag Oflag Cflag Lflag Cc].
  split; [repeat constructor; bitwise |].
  split; [bitwise |].
  split; [repeat constructor; bitwise |].
  split; [bitwise |].
  split; [bitwise |].
  split; [bit_kept |].
  split; [bit_kept |].
  split; [bit_kept |].
  split; [bit_kept |].
  split.
  - intros Hm Ht Hne. split; [| split; [| split]].
    + rewrite list_lookup_insert_ne by auto.
      apply list_lookup_insert_eq. exact Hm.
    + apply list_lookup_insert_eq. rewrite length_insert. exact Ht.
    + rewrite !length_insert. reflexivity.
    + intros i H1 H2. rewrite !list_lookup_insert_ne by auto. reflexivity.
  - f_equal; try bitwise. apply raw_mode_Cc_idempotent.
Qed.

End RawMode.

Section LifecycleFacts.

Variable error : Type.

Variable K : syscall_consts.

Local Abbreviation Init' := (Init error K).

Local Abbreviation Shutdown' := (Shutdown error).

(** X17. [Init] returns nil exactly when all five fallible calls succeed.
    When it returns an error it has written nothing to the terminal,
    changed no attribute of it, allocated no grid and started no reader;
    but it closes nothing: the output file stays open once opened, and
    the signal registrations stay once [setup_term] has succeeded. *)
Theorem Init_fails_without_output (r : init_results error) (p : process) :
  let e := fst (Init' r p) in
  let p' := snd (Init' r p) in
  (e = None <->
   r_create error r = None /\ r_open error r = None /\
   r_setup error r = None /\ (exists t, r_getattr error r = inr t) /\
   r_setattr error r = None) /\
  (e <> None ->
   sess p' = sess p /\ applied p' = applied p /\ readers p' = readers p) /\
  (e <> None -> r_create error r = None -> out_open p' = true) /\
  (e <> None -> r_create error r = None -> r_open error r = None ->
   r_setup error r = None -> notified p' = true).
Proof.
  unfold Init.
  destruct (r_create error r), (r_open error r), (r_setup error r),
    (r_getattr error r), (r_setattr error r); cbn [fst snd sess applied
      readers out_open notified];
    (split; [split; [try discriminate; intros _; eauto 10
                    | intros (? & ? & ? & [? ?] & ?);
                      congruence] |]);
    (split; [intros; try congruence; auto |]);
    (split; intros; try congruence; auto).
Qed.

Lemma Init_screen_eq s :
  Init_screen s =
  update_size
    (out_WriteString t_clear_screen
       (out_WriteString t_hide_cursor
          (out_WriteString t_enter_keypad
             (out_WriteString t_enter_ca s)))).
Proof. reflexivity. Qed.

Lemma Init_success_inv r p p' :
  Init' r p = (None, p') ->
  exists t,
    r_getattr error r = inr t /\
    p' = mkProcess (Init_screen (sess p)) true true true t
           (applied p ++ [raw_mode K t]) (S (readers p)).
Proof.
  unfold Init.
  destruct (r_create error r), (r_open error r), (r_setup error r),
    (r_getattr error r) as [? | t], (r_setattr error r);
    intros E; try discriminate.
  exists t. split; [reflexivity | congruence].
Qed.

(** X18. A successful [Init], on a terminal whose size admits a grid:
    the attributes read are saved, and the terminal gets the raw ones
    derived from them; both files are open and one more reader runs;
    the terminal has received, as four further writes in this order, the
    alternate-screen, keypad, hide-cursor and clear-screen sequences;
    both grids have the terminal's size, which is what [Size] returns,
    and are equal, every cell a blank in the clear attributes; the
    pending output, the cursor and the input mode are as they were; and
    the session is one that programs over the API keep (see
    [between_calls]). *)
Theorem Init_success (r : init_results error) (p p' : process) :
  Init' r p = (None, p') ->
  geometry_ok (tty_size (sess p)) ->
  exists t,
    r_getattr error r = inr t /\
    orig_tios p' = t /\
    applied p' = applied p ++ [raw_mode K t] /\
    (out_open p', in_open p') = (true, true) /\
    readers p' = S (readers p) /\
    tty_written (sess p') =
      tty_written (sess p) ++
        [[WriteString t_enter_ca]; [WriteString t_enter_keypad];
         [WriteString t_hide_cursor]; [WriteString t_clear_screen]] /\
    initialized (sess p') /\
    Size (sess p') = (Done (tty_size (sess p)), sess p') /\
    (width (back_buffer (sess p')), height (back_buffer (sess p')))
      = tty_size (sess p) /\
    front_buffer (sess p') = back_buffer (sess p') /\
    (forall k c, cells (back_buffer (sess p')) !! k = Some c ->
       c = mkCell 32 (foreground (sess p)) (background (sess p))) /\
    em (sess p') = em (sess p) /\
    (cursor_x (sess p'), cursor_y (sess p'))
      = (cursor_x (sess p), cursor_y (sess p)) /\
    input_mode (sess p') = input_mode (sess p) /\
    between_calls (sess p').
Proof.
  intros E Hg. destruct (Init_success_inv r p p' E) as (t & Hr & ->).
  exists t. cbn [sess orig_tios applied out_open in_open readers].
  assert (Hi : initialized (Init_screen (sess p))).
  { rewrite Init_screen_eq. apply update_size_initialized. exact Hg. }
  assert (Hbc : between_calls (Init_screen (sess p))).
  { split; [exact Hi |]. revert Hg. clear.
    unfold Init_screen, out_WriteString, size_agrees.
    destruct (sess p); simpl. destruct tty_size0 as [w h]. simpl. auto. }
  split; [exact Hr |].
  do 4 (split; [reflexivity |]).
  split.
  { unfold Init_screen, out_WriteString. destruct (sess p); simpl.
    destruct tty_size0. simpl. rewrite <- !app_assoc. reflexivity. }
  split; [exact Hi |].
  revert Hbc. clear.
  unfold Init_screen, out_WriteString, Size.
  destruct (sess p); simpl. destruct tty_size0 as [w h]. simpl.
  intros Hbc.
  do 3 (split; [reflexivity |]).
  split.
  { intros k c Hk. apply lookup_replicate_1 in Hk. tauto. }
  auto.
Qed.

(** X19. A successful [Init], any use of the drawing API, then
    [Shutdown]: the terminal receives, after everything written before,
    the show-cursor, reset-attributes, clear-screen, leave-alternate-screen
    and leave-keypad sequences as five writes in this order; the last
    attributes given to the terminal are the ones [Init] read, unless
    the call that restores them fails, in which case the raw ones stay;
    both files are closed; output still pending is not written, and the
    reader is not stopped. *)
Theorem Init_then_Shutdown (r : init_results error) (p p1 : process)
    (s : session) (restore : option error) :
  Init' r p = (None, p1) ->
  let p2 := Shutdown' restore (with_session s p1) in
  exists t,
    r_getattr error r = inr t /\
    last (applied p2)
      = Some (match restore with None => t | Some _ => raw_mode K t end) /\
    (out_open p2, in_open p2) = (false, false) /\
    tty_written (sess p2) =
      tty_written s ++
        [[WriteString t_show_cursor]; [WriteString t_sgr0];
         [WriteString t_clear_screen]; [WriteString t_exit_ca];
         [WriteString t_exit_keypad]] /\
    em (sess p2) = em s /\
    readers p2 = S (readers p).
Proof.
  intros E p2. destruct (Init_success_inv r p p1 E) as (t & Hr & ->).
  exists t. subst p2. unfold Shutdown, with_session, out_WriteString.
  cbn [sess orig_tios applied out_open in_open readers notified].
  split; [exact Hr |].
  split; [destruct restore; rewrite ?app_assoc; apply last_snoc |].
  split; [reflexivity |].
  split; [| split; reflexivity].
  destruct s; simpl. rewrite <- !app_assoc. reflexivity.
Qed.

(** X20. A second [Init] before [Shutdown], on a terminal that reports
    the attributes it was last given: the attributes saved are the raw
    ones, so [Shutdown] gives the terminal the raw attributes again, not
    the ones it had before the first [Init]; and two readers run. *)
Theorem Init_twice_forgets_the_attributes (r1 r2 : init_results error)
    (p p1 p2 : process) (s : session) (t : termios) :
  Init' r1 p = (None, p1) ->
  r_getattr error r1 = inr t ->
  r_getattr error r2 = inr (raw_mode K t) ->
  Init' r2 (with_session s p1) = (None, p2) ->
  orig_tios p2 = raw_mode K t /\
  last (applied (Shutdown' None p2)) = Some (raw_mode K t) /\
  readers p2 = S (S (readers p)).
Proof.
  intros E1 H1 H2 E2.
  destruct (Init_success_inv r1 p p1 E1) as (t1 & Hr1 & ->).
  destruct (Init_success_inv r2 _ p2 E2) as (t2 & Hr2 & ->).
  assert (t2 = raw_mode K t) by congruence. subst t2.
  cbn [orig_tios applied readers Shutdown with_session].
  split; [reflexivity |]. split; [| reflexivity].
  unfold Shutdown. cbn [applied orig_tios]. apply last_snoc.
Qed.

End LifecycleFacts.

Lemma differing_cells_same W back : differing_cells W back back = [].
Proof.
  unfold differing_cells. apply omap_all_None.
  intros k _. rewrite changed_at_same. reflexivity.
Qed.

Section InitThenPresent.

Variable error : Type.

Variable K : syscall_consts.

Variable is_cursor_hidden : Z -> Z -> bool.

Variable coord_invalid : Z.

Variable send_attr : Attribute -> Attribute -> emitter -> emitter.

Variable send_char : Z -> Z -> rune -> emitter -> emitter.

Local Abbreviation Init' := (Init error K).

Local Abbreviation Present' :=
  (Present is_cursor_hidden coord_invalid send_attr send_char).

(** X21. The first [Present] after a successful [Init], nothing having
    been drawn and no resize pending, sends no cell: [send_attr] and
    [send_char] are not called, and its write holds what was pending
    before and the move to the cursor when the cursor is visible. *)
Theorem Present_after_Init_sends_no_cell (r : init_results error)
    (p p' : process) :
  Init' r p = (None, p') ->
  geometry_ok (tty_size (sess p)) ->
  sigwinch_draw (sess p) = false ->
  exists s',
    Present' (sess p') = (Done tt, s') /\
    differing_cells (width (back_buffer (sess p')))
      (cells (back_buffer (sess p'))) (cells (front_buffer (sess p'))) = [] /\
    tty_written s' =
      tty_written (sess p') ++
        [outbuf (em (sess p)) ++
         if is_cursor_hidden (cursor_x (sess p)) (cursor_y (sess p)) then []
         else [Fprintf t_move_cursor (GoInt.add (cursor_y (sess p)) 1)
                                     (GoInt.add (cursor_x (sess p)) 1)]].
Proof.
  intros E Hg Hslot.
  destruct (Init_success_inv error K r p p' E) as (t & Hr & ->).
  cbn [sess].
  assert (Hi : initialized (Init_screen (sess p))).
  { rewrite Init_screen_eq. apply update_size_initialized. exact Hg. }
  assert (Hs : sigwinch_draw (Init_screen (sess p)) = false).
  { unfold Init_screen, out_WriteString. destruct (sess p); simpl in *.
    destruct tty_size0. exact Hslot. }
  assert (Hfb : front_buffer (Init_screen (sess p))
                = back_buffer (Init_screen (sess p))).
  { unfold Init_screen, out_WriteString. destruct (sess p); simpl.
    destruct tty_size0. reflexivity. }
  assert (Hem : em (Init_screen (sess p)) = em (sess p) /\
                cursor_x (Init_screen (sess p)) = cursor_x (sess p) /\
                cursor_y (Init_screen (sess p)) = cursor_y (sess p)).
  { unfold Init_screen, out_WriteString. destruct (sess p); simpl.
    destruct tty_size0. auto. }
  destruct Hem as (Hem & Hcx & Hcy).
  eexists. split; [apply Present_no_resize_eq; assumption |].
  rewrite Hfb, differing_cells_same. split; [reflexivity |].
  unfold flush, Present_cursor, presented_state, emit_cells. simpl.
  rewrite Hcx, Hcy, Hem.
  destruct (is_cursor_hidden (cursor_x (sess p)) (cursor_y (sess p))); simpl;
    rewrite ?app_nil_r; reflexivity.
Qed.

End InitThenPresent.

(** ** Init and Shutdown on a Linux terminal in line mode *)

Section LifecycleInstances.

Lemma Init_success_witness :
  exists p',
    Init unit linux_consts all_succeed example_process = (None, p') /\
    applied p' = [mkTermios 0 0x4 0xBF 0x0A30
                    (<[5%nat := 0]> (<[6%nat := 1]> (replicate 32 0)))] /\
    tty_written (sess p') =
      [[WriteString t_enter_ca]; [WriteString t_enter_keypad];
       [WriteString t_hide_cursor]; [WriteString t_clear_screen]] /\
    Size (sess p') = (Done (2, 2), sess p').
Proof.
  eexists. split; [reflexivity |].
  destruct (Init_success unit linux_consts all_succeed example_process _
              eq_refl)
    as (t & Hr & _ & Ha & _ & _ & Hw & _ & Hsz & _).
  - vm_compute. repeat split; discriminate.
  - injection Hr as <-.
    split; [exact Ha |]. split; [exact Hw | exact Hsz].
Defined.

Lemma Init_then_Shutdown_witness :
  last (applied
          (Shutdown unit None
             (snd (Init unit linux_consts all_succeed example_process))))
    = Some cooked_tios.
Proof.
  destruct (Init_then_Shutdown unit linux_consts all_succeed example_process
              _ (sess (snd (Init unit linux_consts all_succeed
                              example_process))) None eq_refl)
    as (t & Hr & Hl & _).
  injection Hr as <-. exact Hl.
Defined.

Lemma Init_twice_forgets_the_attributes_witness :
  let again :=
    mkInitResults unit None None None
      (inr (raw_mode linux_consts cooked_tios)) None in
  let p1 := snd (Init unit linux_consts all_succeed example_process) in
  let p2 := snd (Init unit linux_consts again p1) in
  last (applied (Shutdown unit None p2))
    = Some (raw_mode linux_consts cooked_tios) /\
  raw_mode linux_consts cooked_tios <> cooked_tios.
Proof.
  intros again p1 p2.
  destruct (Init_twice_forgets_the_attributes unit linux_consts all_succeed
              again example_process p1 p2 (sess p1) cooked_tios
              eq_refl eq_refl eq_refl eq_refl)
    as (_ & Hl & _).
  split; [exact Hl | vm_compute; discriminate].
Defined.

Lemma Present_after_Init_sends_no_cell_witness :
  exists s',
    Present_spec
      (sess (snd (Init unit linux_consts all_succeed example_process)))
      = (Done tt, s') /\
    tty_written s' =
      [[WriteString t_enter_ca]; [WriteString t_enter_keypad];
       [WriteString t_hide_cursor]; [WriteString t_clear_screen]; []].
Proof.
  destruct (Present_after_Init_sends_no_cell unit linux_consts
              is_cursor_hidden_spec coord_invalid_spec send_attr_spec
              send_char_spec all_succeed example_process _ eq_refl)
    as (s' & E & _ & Hw).
  - vm_compute. repeat split; discriminate.
  - reflexivity.
  - exists s'. split; [exact E | exact Hw].
Defined.

End LifecycleInstances.

(** ** The input pipeline: what reaches [inbuf] *)

Section Delivery.

Import InputPipeline.

Variable extract_event : list Z -> bool * list Z.

Lemma run_reachable input p :
  run_from extract_event (start input) p -> reachable extract_event p.
Proof.
  induction 1 as [| p q _ IH Hstep].
  - apply reach_start.
  - exact (reach_step _ _ _ IH Hstep).
Qed.

Lemma taken_in_order_run input p :
  run_from extract_event (start input) p -> taken_in_order input p.
Proof.
  induction 1 as [| p q _ IH Hstep].
  - unfold taken_in_order. simpl. auto.
  - destruct IH as (Hin & Hall & Hlen). unfold taken_in_order in *.
    destruct Hstep; simpl in *; auto.
    split; [rewrite <- app_assoc; exact Hin |].
    split; [constructor; assumption |].
    rewrite length_app, length_drop. lia.
Qed.

Lemma extracted_pending (h : list action) :
  (forall ib, exists taken, ib = taken ++ snd (extract_event ib)) ->
  extracted extract_event h ++ pending extract_event h
    = concat (rev (appends h)).
Proof.
  intros Hfront. induction h as [| a h IH]; [reflexivity |].
  destruct a as [c | b | |]; simpl.
  - exact IH.
  - rewrite concat_app. simpl. rewrite app_nil_r, app_assoc, IH. reflexivity.
  - exact IH.
  - rewrite <- IH, <- app_assoc. f_equal.
    destruct (Hfront (pending extract_event h)) as (taken & E).
    clear IH. revert E.
    generalize (snd (extract_event (pending extract_event h))) as rest.
    generalize (pending extract_event h) as ib.
    intros ib rest ->.
    rewrite length_app.
    replace (length taken + length rest - length rest)%nat
      with (length taken) by lia.
    rewrite take_app_length. reflexivity.
Qed.

(** X22. Whatever the interleaving of the reader and a single caller of
    [PollEvent], and for a decoder that takes bytes from the front of
    [inbuf] only: the bytes the decoder has taken so far, followed by
    the bytes [inbuf] holds, by the chunk in flight and by what the
    device has not given yet, are the bytes of the device in their
    order: nothing is lost, repeated or reordered on the way to [inbuf].
    The chunk in flight has at most 128 bytes, and is empty whenever the
    reader is about to read; the array behind the slices keeps its 128
    bytes. *)
Theorem input_reaches_inbuf_in_order (input : list (list Z)) (p : pipeline) :
  (forall ib, exists taken, ib = taken ++ snd (extract_event ib)) ->
  run_from extract_event (start input) p ->
  exists in_flight,
    extracted extract_event (history p) ++ inbuf p ++ in_flight ++
      concat (tty_input p) = concat input /\
    (length in_flight <= 128)%nat /\
    (reader p = R_read -> in_flight = []) /\
    length (store p) = 128%nat.
Proof.
  intros Hfront Hrun.
  destruct (taken_in_order_run _ _ Hrun) as (Hin & Hall & Hlen).
  pose proof (run_reachable _ _ Hrun) as Hreach.
  destruct (InputPipelineFacts.reachable_in_step _ _ Hreach) as [_ Hst].
  cut (exists in_flight,
         concat (rev (appends (history p))) ++ in_flight ++
           concat (tty_input p) = concat input /\
         (length in_flight <= 128)%nat /\
         (reader p = R_read -> in_flight = []) /\
         length (store p) = 128%nat).
  { intros (c & Hc & Hrest). exists c. split; [| exact Hrest].
    rewrite (InputPipelineFacts.inbuf_pending _ _ Hreach).
    rewrite app_assoc, (extracted_pending _ Hfront). exact Hc. }
  rewrite <- Hin, concat_app.
  assert (Hsame : appends (history p) = reads (history p) ->
            exists in_flight,
              concat (rev (appends (history p))) ++ in_flight ++
                concat (tty_input p)
              = concat (rev (reads (history p))) ++ concat (tty_input p) /\
              (length in_flight <= 128)%nat /\
              (reader p = R_read -> in_flight = []) /\
              length (store p) = 128%nat).
  { intros ->. exists []. simpl. auto with lia. }
  assert (Hone : reader p <> R_read ->
            (exists c, reads (history p) = c :: appends (history p)) ->
            exists in_flight,
              concat (rev (appends (history p))) ++ in_flight ++
                concat (tty_input p)
              = concat (rev (reads (history p))) ++ concat (tty_input p) /\
              (length in_flight <= 128)%nat /\
              (reader p = R_read -> in_flight = []) /\
              length (store p) = 128%nat).
  { intros Hne (c & Hc). exists c. rewrite Hc in Hall |- *.
    inversion Hall; subst. simpl. rewrite concat_app. simpl.
    rewrite app_nil_r, <- app_assoc.
    split; [reflexivity |]. split; [assumption |].
    split; [intros; contradiction | exact Hlen]. }
  destruct (reader p), (consumer p); simpl in Hst; try contradiction;
    first [ apply Hsame; tauto
          | apply Hone; [discriminate |];
            destruct Hst as (c & Hc & _); exists c; exact Hc ].
Qed.

End Delivery.

Section DeliveryInstance.

Import InputPipeline.

Lemma after_one_event_run :
  run_from extract_one_byte (start [[27; 91]]) after_one_event.
Proof.
  pose proof (run_here extract_one_byte (start [[27; 91]])) as H0.
  pose proof (run_step _ _ _ _ H0
                (step_poll _ _ _ _ _ _ _)) as H1.
  pose proof (run_step _ _ _ _ H1
                (step_extract _ _ _ _ _ _ _)) as H2.
  pose proof (run_step _ _ _ _ H2
                (step_read _ _ [27; 91] _ _ _ _ _ ltac:(simpl; lia))) as H3.
  pose proof (run_step _ _ _ _ H3
                (step_forward _ _ _ _ _ _ _)) as H4.
  pose proof (run_step _ _ _ _ H4
                (step_append _ _ _ _ _ _ _ _)) as H5.
  pose proof (run_step _ _ _ _ H5
                (step_handback _ _ _ _ _ _ _)) as H6.
  pose proof (run_step _ _ _ _ H6
                (step_extract _ _ _ _ _ _ _)) as H7.
  exact H7.
Qed.

Lemma extract_one_byte_front ib :
  exists taken, ib = taken ++ snd (extract_one_byte ib).
Proof.
  destruct ib as [| b rest]; [exists [] | exists [b]]; reflexivity.
Qed.

(** After the two bytes [27; 91] were read and an event decoded from the
    first: [27] was taken, [91] is what [inbuf] holds, nothing is in
    flight. *)
Lemma input_reaches_inbuf_in_order_witness :
  extracted extract_one_byte (history after_one_event) = [27] /\
  inbuf after_one_event = [91] /\
  exists in_flight,
    extracted extract_one_byte (history after_one_event) ++
      inbuf after_one_event ++ in_flight ++
      concat (tty_input after_one_event) = [27; 91] /\
    in_flight = [].
Proof.
  destruct (input_reaches_inbuf_in_order extract_one_byte [[27; 91]]
              after_one_event extract_one_byte_front after_one_event_run)
    as (c & Hc & _ & Hr & _).
  split; [reflexivity |]. split; [reflexivity |].
  exists c. split; [exact Hc | apply Hr; reflexivity].
Defined.

End DeliveryInstance.

(** ** Key and attribute constants *)

Section Constants.

(** X23. The 22 function and navigation keys have 22 different values,
    all 16-bit and from [0xFFEA] up, above every control-key value, none
    of which exceeds [0x7F]; the control-key names are not all different
    keys: backspace is Ctrl-H, tab is Ctrl-I, enter is Ctrl-M, escape is
    Ctrl-[ and Ctrl-3. *)
Theorem key_values :
  (forall k1 k2, function_key_code k1 = function_key_code k2 -> k1 = k2) /\
  (forall k, 0xFFEA <= function_key_code k <= 0xFFFF) /\
  (forall c k, 0 <= control_key_code c <= 0x7F /\
               control_key_code c < function_key_code k) /\
  control_key_code KeyBackspace = control_key_code KeyCtrlH /\
  control_key_code KeyTab = control_key_code KeyCtrlI /\
  control_key_code KeyEnter = control_key_code KeyCtrlM /\
  control_key_code KeyEsc = control_key_code KeyCtrlLsqBracket /\
  control_key_code KeyEsc = control_key_code KeyCtrl3.
Proof.
  split.
  { intros k1 k2 E. unfold function_key_code in E.
    assert (Ei : iota k1 = iota k2) by lia. clear E.
    destruct k1, k2; first [reflexivity | discriminate Ei]. }
  split.
  { intros k. destruct k; vm_compute; split; discriminate. }
  split.
  { intros c k.
    assert (0xFFEA <= function_key_code k)
      by (destruct k; vm_compute; discriminate).
    assert (0 <= control_key_code c <= 0x7F)
      by (destruct c; vm_compute; split; discriminate).
    lia. }
  repeat split.
Qed.

Lemma styled_parts c b u :
  In c colors ->
  Z.land (styled c b u) 0x0F = c /\
  Z.testbit (styled c b u) 4 = b /\
  Z.testbit (styled c b u) 5 = u.
Proof.
  intros Hc. unfold colors in Hc. simpl in Hc.
  repeat (destruct Hc as [<- | Hc]; [destruct b, u; vm_compute; auto |]).
  contradiction.
Qed.

(** X24. A colour combined by bitwise OR with any of the two attributes
    can be told from every other such combination: the colour and each
    attribute are recovered.  Two colours cannot be combined: for the
    eight colours from black to white the OR of two of them is again one
    of the eight, as red with green is yellow. *)
Theorem styled_is_injective (c1 c2 : Attribute) (b1 u1 b2 u2 : bool) :
  In c1 colors -> In c2 colors ->
  (styled c1 b1 u1 = styled c2 b2 u2 -> c1 = c2 /\ b1 = b2 /\ u1 = u2) /\
  0 <= styled c1 b1 u1 < 2 ^ 16 /\
  (c1 <> ColorDefault -> c2 <> ColorDefault ->
   In (Z.lor c1 c2) colors /\ Z.lor c1 c2 <> ColorDefault).
Proof.
  intros H1 H2. split; [| split].
  - intros E.
    destruct (styled_parts c1 b1 u1 H1) as (Hc1 & Hb1 & Hu1).
    destruct (styled_parts c2 b2 u2 H2) as (Hc2 & Hb2 & Hu2).
    rewrite E in Hc1, Hb1, Hu1. repeat split; congruence.
  - unfold colors in H1. simpl in H1.
    repeat (destruct H1 as [<- | H1];
            [destruct b1, u1; vm_compute;
             (split; [intros X; discriminate X | reflexivity])
            |]).
    contradiction.
  - intros N1 N2. unfold colors in H1, H2. simpl in H1, H2.
    repeat (destruct H1 as [<- | H1];
            [repeat (destruct H2 as [<- | H2];
                     [first [ contradiction N1; reflexivity
                            | contradiction N2; reflexivity
                            | vm_compute;
                              (split; [auto 12 | intros X; discriminate X]) ]
                     |]); contradiction
            |]).
    contradiction.
Qed.

Lemma styled_is_injective_witness :
  Z.lor ColorRed ColorGreen = ColorYellow /\
  (styled ColorRed true false = styled ColorGreen true false -> False).
Proof.
  destruct (styled_is_injective ColorRed ColorGreen true false true false)
    as (Hinj & _ & _).
  - vm_compute. tauto.
  - vm_compute. tauto.
  - split; [reflexivity |].
    intros E. destruct (Hinj E) as (Hc & _). discriminate Hc.
Defined.

End Constants.

(** ** Programs over the drawing API *)

Section Programs.

Variable is_cursor_hidden : Z -> Z -> bool.

Variable coord_invalid : Z.

Variable send_attr : Attribute -> Attribute -> emitter -> emitter.

Variable send_char : Z -> Z -> rune -> emitter -> emitter.

Local Abbreviation Present' :=
  (Present is_cursor_hidden coord_invalid send_attr send_char).

Local Abbreviation do_call' :=
  (do_call is_cursor_hidden coord_invalid send_attr send_char).

Local Abbreviation do_calls' :=
  (do_calls is_cursor_hidden coord_invalid send_attr send_char).

Lemma between_calls_set_cells s cs' :
  length cs' = length (cells (back_buffer s)) ->
  between_calls s ->
  between_calls (set_back_buffer (set_cells cs' (back_buffer s)) s).
Proof.
  intros Hl (Hi & Ha & Hg). split; [| split].
  - apply initialized_set_cells; assumption.
  - exact Ha.
  - exact Hg.
Qed.

Lemma between_calls_consume_resize s :
  between_calls s -> between_calls (consume_resize s).
Proof.
  intros (Hi & Ha & Hg). unfold consume_resize.
  destruct (sigwinch_draw s) eqn:E;
    [| split; [| split]; first [assumption | intros X; congruence]].
  split; [| split].
  - apply update_size_initialized. simpl. auto.
  - unfold update_size, size_agrees. simpl. destruct (tty_size s). split; reflexivity.
  - unfold update_size. simpl. destruct (tty_size s). simpl. discriminate.
Qed.

Lemma PutCell_some_returns s x y c :
  initialized s -> fst (PutCell x y (Some c) s) = Done tt.
Proof.
  intros (Hb & _). unfold PutCell.
  destruct ((x <? 0) || (x >=? width (back_buffer s))) eqn:E1; [reflexivity |].
  destruct ((y <? 0) || (y >=? height (back_buffer s))) eqn:E2; [reflexivity |].
  apply orb_false_iff in E1 as [? ?]. apply orb_false_iff in E2 as [? ?].
  destruct (cell_index_in_range (back_buffer s) x y Hb) as [Hi Hadd];
    [lia | lia |].
  rewrite Hadd.
  replace (0 <=? y * width (back_buffer s) + x) with true by lia.
  replace (y * width (back_buffer s) + x <? len (cells (back_buffer s)))
    with true by lia.
  reflexivity.
Qed.

Lemma Present_between_calls s :
  between_calls s ->
  fst (Present' s) = Done tt /\ between_calls (snd (Present' s)).
Proof.
  intros Hb. unfold Present.
  set (s1 := set_em (set_last coord_invalid coord_invalid (em s)) s).
  assert (Hb1 : between_calls s1) by exact Hb.
  pose proof (between_calls_consume_resize s1 Hb1) as (Hi2 & Ha2 & Hg2).
  rewrite (Present_diff_emits send_attr send_char _ Hi2).
  split; [reflexivity |]. cbn [snd].
  unfold flush, Present_cursor, presented_state.
  destruct Hi2 as (Hbb & Hf & EW & EH).
  destruct (negb _); (split; [| split; [exact Ha2 | exact Hg2]]);
    unfold initialized, cellbuf_ok in *; simpl; rewrite ?EW, ?EH; tauto.
Qed.

Lemma do_call_between_calls c s :
  between_calls s -> size_fits c ->
  between_calls (snd (do_call' c s)) /\
  (takes_callers_memory c = false -> fst (do_call' c s) = Done tt).
Proof.
  intros Hb Hfit. destruct c as [x y p | x y ch fg bg | x y w cs | x y | | m
                                | fg bg | | | | w h]; cbn [do_call].
  - destruct (PutCell_cells_only s x y p) as (cs' & -> & L).
    split; [apply between_calls_set_cells; assumption |].
    destruct p as [c |]; [| discriminate].
    intros _. apply PutCell_some_returns. apply Hb.
  - unfold ChangeCell.
    destruct (PutCell_cells_only s x y (Some (mkCell ch fg bg)))
      as (cs' & -> & L).
    split; [apply between_calls_set_cells; assumption |].
    intros _. apply PutCell_some_returns. apply Hb.
  - destruct (Blit_cells_only s x y w cs) as (cs' & -> & L).
    split; [apply between_calls_set_cells; assumption | discriminate].
  - split; [exact Hb | reflexivity].
  - split; [exact Hb | reflexivity].
  - unfold bind, SetInputMode. split; [| reflexivity].
    destruct (negb (m =? InputCurrent)); exact Hb.
  - split; [exact Hb | reflexivity].
  - unfold Clear. split; [| reflexivity]. cbn [snd].
    pose proof (between_calls_consume_resize s Hb) as Hb1.
    apply between_calls_set_cells; [| exact Hb1].
    apply length_replicate.
  - destruct (Present_between_calls s Hb) as [Ho Hb']. auto.
  - split; [exact Hb | reflexivity].
  - split; [| reflexivity]. destruct Hb as (Hi & Ha & _).
    split; [exact Hi |]. split; [exact Ha |]. intros _. exact Hfit.
Qed.

(** X25. From a session in which the grids are well formed and [Size]
    agrees with the back grid, as [Init] leaves it, any sequence of API
    calls, with the terminal changing its size in between at will, ends
    in such a session again: [Size] returns the width and height of the
    back grid at every point.  And no call panics except [Blit] and a
    [PutCell] given a nil pointer: a program without these two runs to
    its end. *)
Theorem calls_keep_the_session (l : list call) (s : session) :
  between_calls s -> Forall size_fits l ->
  let s' := snd (do_calls' l s) in
  between_calls s' /\
  Size s' = (Done (width (back_buffer s'), height (back_buffer s')), s') /\
  (forallb (fun c => negb (takes_callers_memory c)) l = true ->
   fst (do_calls' l s) = Done tt).
Proof.
  intros Hb Hfit. revert s Hb.
  induction Hfit as [| c l Hc _ IH]; intros s Hb.
  - cbn. pose proof Hb as (Hi & (Hw & Hh) & Hg).
    split; [exact Hb |].
    split; [unfold Size; rewrite Hw, Hh; reflexivity | reflexivity].
  - cbn [do_calls forallb]. unfold bind.
    destruct (do_call_between_calls c s Hb Hc) as [Hb1 Hret].
    destruct (do_call' c s) as [[[] | pn] s1]; cbn [fst snd] in *.
    + destruct (IH s1 Hb1) as (Hb2 & Hsz & Hrun).
      split; [exact Hb2 |]. split; [exact Hsz |].
      intros Hall. apply andb_true_iff in Hall as [_ Hall]. auto.
    + pose proof Hb1 as (Hi & (Hw & Hh) & Hg).
      split; [exact Hb1 |].
      split; [unfold Size; rewrite Hw, Hh; reflexivity |].
      intros Hall. apply andb_true_iff in Hall as [Hc1 _].
      apply negb_true_iff in Hc1. specialize (Hret Hc1). discriminate.
Qed.

End Programs.

Section ProgramInstance.

(** After [Init] on a 2 by 2 terminal: a program that draws, presents,
    survives a resize to 3 by 1 and presents again. *)
Lemma calls_keep_the_session_witness :
  let s := sess (snd (Init unit linux_consts all_succeed example_process)) in
  let l := [CallChangeCell 1 1 65 1 0; CallSetCursor 0 0; CallPresent;
            Resized 3 1; CallClear; CallPresent; CallSize] in
  let s' := snd (do_calls is_cursor_hidden_spec coord_invalid_spec
                   send_attr_spec send_char_spec l s) in
  Size s' = (Done (3, 1), s') /\
  fst (do_calls is_cursor_hidden_spec coord_invalid_spec
         send_attr_spec send_char_spec l s) = Done tt.
Proof.
  intros s l s'.
  destruct (calls_keep_the_session is_cursor_hidden_spec coord_invalid_spec
              send_attr_spec send_char_spec l s)
    as (_ & Hsz & Hrun).
  - vm_compute. repeat split; discriminate.
  - repeat constructor; vm_compute; discriminate.
  - split; [exact Hsz | apply Hrun; reflexivity].
Defined.

End ProgramInstance.
